(** * JsonDb: a throttled, write-coalescing JSON document store

    Shallow embedding of [src/cli/utils/json-db/index.ts] (class [JsonDb]).

    The class keeps a document in memory ([payload]), applies partial
    updates to it synchronously and writes it to a single file.  Writes are
    throttled and coalesced by the method [store], which is driven by four
    kinds of events of the JavaScript event loop: a call of [update], a call
    of [flush], a timer armed with [setTimeout] firing, and the completion
    (success or failure) of [writeFile].  Every synchronous stretch of code
    is one atomic step of the model and reads one value of [Date.now()]. *)

From Stdlib Require Import ZArith Lia Ascii String.
From stdpp Require Import base option list gmap strings.

#[local] Set Warnings "-register-all".
#[local] Open Scope Z_scope.

(** ** JavaScript values

    The values a JSON file can hold, plus [undefined] (the result of reading
    a property that is not there).  Numbers are modelled as integers: the
    only numbers the store computes with are millisecond timestamps. *)

Inductive value :=
  | VUndefined
  | VNull
  | VBool (b : bool)
  | VNum (n : Z)
  | VStr (s : string)
  | VArr (l : list value)
  | VObj (m : gmap string value).

(** [!v] is [true] exactly for these values. *)
Definition falsy (v : value) : bool :=
  match v with
  | VUndefined | VNull => true
  | VBool b => negb b
  | VNum n => n =? 0
  | VStr s => bool_decide (s = EmptyString)
  | VArr _ | VObj _ => false
  end.

(** Reading a property of [undefined] or [null] raises a [TypeError]. *)
Definition nullish (v : value) : bool :=
  match v with
  | VUndefined | VNull => true
  | _ => false
  end.

(** [v.k] for a value that is not nullish.  None of the keys the store reads
    ([meta], [data], [createTime], [lastSync], [lastUpdate]) is a built-in
    property of arrays, strings, numbers or booleans. *)
Definition get (v : value) (k : string) : value :=
  match v with
  | VObj m => default VUndefined (m !! k)
  | _ => VUndefined
  end.

(** [typeof v === 'number'] *)
Definition is_number (v : value) : bool :=
  match v with
  | VNum _ => true
  | _ => false
  end.

(** The number held by a value that [is_number] has accepted. *)
Definition number_of (v : value) : Z :=
  match v with
  | VNum n => n
  | _ => 0
  end.

(** A function either returns or throws. *)
Inductive completion (A : Type) :=
  | Thrown
  | Normal (a : A).
Arguments Thrown {A}.
Arguments Normal {A} a.

(** ** Deep merge with deletion

    [assignDeepWithDelete] is [getCustomAssign] of the package
    [super-assign], configured with [deleteValue: null] (lines 9-12). *)

(** The delete sentinel chosen at line 11. *)
Definition deleteValue : value := VNull.

Definition apply_field (d : option value)
    (f : option (option value -> option value)) : option value :=
  match f with
  | None => d
  | Some f => f d
  end.

(** Modelled from the spec: the body of [getCustomAssign] (package
    [super-assign]) is not part of the sources.  What a field [u] of the
    update does to the corresponding field of the document: the delete
    sentinel removes it; a mapping is merged key by key into the field when
    that is a mapping, and otherwise replaces the field, merged into an
    empty mapping so that the sentinel is honoured at any depth; any other
    value (scalar or sequence) replaces the field wholesale. *)
Fixpoint assign_field (u : value) {struct u} : option value -> option value :=
  match u with
  | VNull => fun _ => None
  | VObj um =>
      let fs := assign_field <$> um in
      fun d =>
        match d with
        | Some (VObj dm) => Some (VObj (merge apply_field dm fs))
        | _ => Some (VObj (merge apply_field ∅ fs))
        end
  | _ => fun _ => Some u
  end.

(** Modelled from the spec: [apply(document, update)] on two mappings (see
    [assign_field]); fields absent from the update are left as they are. *)
Definition assign_obj (dm um : gmap string value) : gmap string value :=
  merge apply_field dm (assign_field <$> um).

(** Modelled from the spec: [assignDeepWithDelete(target, data)].  The spec
    defines the merge on mappings only; on anything else the target is left
    as it is. *)
Definition assignDeepWithDelete (target data : value) : value :=
  match target, data with
  | VObj dm, VObj um => VObj (assign_obj dm um)
  | _, _ => target
  end.

(** ** Data model (lines 14-78) *)

Record JsonDbMetadata := Meta {
  createTime : Z;
  lastUpdate : Z;
  lastSync : Z;
}.

(** [this.options] after the defaults of the constructor were applied.  The
    hooks are pure functions; [afterSync] only observes a finished write and
    is left out. *)
Record JsonDbOptions := Options {
  syncThrottle : Z;
  prettify : bool;
  initialData : option value;
  throwIfNotExists : bool;
  beforeSync : option (value -> value);
  afterLoad : option (value -> value);
}.

(** The options as the caller gives them: every field may be left out. *)
Record UserOptions := UserOpts {
  u_syncThrottle : option Z;
  u_prettify : option bool;
  u_initialData : option value;
  u_throwIfNotExists : option bool;
  u_beforeSync : option (value -> value);
  u_afterLoad : option (value -> value);
}.

(** Lines 118-124. *)
Definition with_defaults (o : UserOptions) : JsonDbOptions :=
  {| syncThrottle := default 5000 (u_syncThrottle o);
     prettify := default true (u_prettify o);
     initialData := Some (default (VObj ∅) (u_initialData o));
     throwIfNotExists := default false (u_throwIfNotExists o);
     beforeSync := u_beforeSync o;
     afterLoad := u_afterLoad o |}.

(** What [writeFile] is given: [{ meta, data }] (line 361), before
    [JSON.stringify]. *)
Record StoredData := Stored {
  stored_meta : JsonDbMetadata;
  stored_data : value;
}.

(** Promises and timers are named by numbers drawn from one counter.
    [doItNow] is only ever tested for truthiness: [undefined] and [false]
    are both [false] here. *)
Record ScheduledSync := Scheduled {
  timer : option nat;
  doItNow : bool;
  promise : nat;
}.

Record JsonDb := Db {
  meta : JsonDbMetadata;
  options : JsonDbOptions;
  path : string;
  payload : value;
  writing : bool;
  scheduled : option ScheduledSync;
}.

(** ** Loading (lines 115-236) *)

(** What the file system holds at [path]: nothing, a file that [readFile]
    cannot read, a file whose text [JSON.parse] rejects, or a file whose
    text parses to [raw]. *)
Inductive file_state :=
  | FileMissing
  | FileUnreadable
  | FileUnparsable
  | FileParsed (raw : value).

(** What the file system holds for the folder of [path]: the folder is
    missing, and [mkdirpSync] can create it or not (a file in the way, no
    permission); or the folder is there, with what it holds at [path]. *)
Inductive FileSystem :=
  | NoFolder (creatable : bool)
  | Folder (file : file_state).

(** [existsSync(folder)] *)
Definition folder_exists (fs : FileSystem) : bool :=
  match fs with
  | NoFolder _ => false
  | Folder _ => true
  end.

Definition file_at_path (fs : FileSystem) : file_state :=
  match fs with
  | NoFolder _ => FileMissing
  | Folder file => file
  end.

(** [existsSync(this.path)] *)
Definition existsSync_path (fs : FileSystem) : bool :=
  match file_at_path fs with
  | FileMissing => false
  | _ => true
  end.

(** [mkdirpSync(folder)] (line 213): creates the folder, or throws. *)
Definition mkdirpSync (fs : FileSystem) : completion FileSystem :=
  match fs with
  | NoFolder true => Normal (Folder FileMissing)
  | NoFolder false => Thrown
  | Folder _ => Normal fs
  end.

(** Lines 153-161.  [raw] is truthy when [meta] is read, so the
    destructuring cannot throw; [meta.createTime] throws when [meta] is
    [undefined] or [null]. *)
Definition isValidData (raw : value) : completion bool :=
  if falsy raw then Normal false
  else
    let m := get raw "meta" in
    if nullish m then Thrown
    else Normal (is_number (get m "createTime")
                 && is_number (get m "lastSync")
                 && is_number (get m "lastUpdate")).

Record ReadResult := ReadRes {
  read_data : value;
  read_meta : value;
}.

(** Lines 204-236.  Returns the result of [read] and the file system it
    leaves ([mkdirpSync] may have created the folder).  The two [throw]s
    and [mkdirpSync] come before the [try] of line 219: what they throw
    leaves [read]; what [readFile], [JSON.parse] and [isValidData] throw is
    caught at line 233. *)
Definition read (o : JsonDbOptions) (fs : FileSystem)
    : completion (option ReadResult) * FileSystem :=
  if throwIfNotExists o && negb (existsSync_path fs) then (Thrown, fs)
  else
    match (if folder_exists fs then Normal fs else mkdirpSync fs) with
    | Thrown => (Thrown, fs)
    | Normal fs' =>
        match file_at_path fs' with
        | FileMissing => (Normal None, fs')
        | FileUnreadable | FileUnparsable => (Normal None, fs')
        | FileParsed raw =>
            match isValidData raw with
            | Thrown => (Normal None, fs')
            | Normal false => (Normal None, fs')
            | Normal true =>
                let d := get raw "data" in
                (Normal (Some {| read_data := match afterLoad o with
                                              | Some f => f d
                                              | None => d
                                              end;
                                 read_meta := get raw "meta" |}), fs')
            end
        end
    end.

(** The outcome of the promise [isInitDone] that [isReady] returns. *)
Inductive ready :=
  | ReadyRejected
  | ReadyResolved (d : JsonDb).

(** Lines 115-145: the constructor together with the continuation of
    [this.read()]; [now] is [Date.now()] at construction. *)
Definition construct (p : string) (o : JsonDbOptions) (now : Z)
    (fs : FileSystem) : ready :=
  let m0 := {| createTime := now; lastSync := 0; lastUpdate := 0 |} in
  let d0 := {| meta := m0; options := o; path := p; payload := VObj ∅;
               writing := false; scheduled := None |} in
  match fst (read o fs) with
  | Thrown => ReadyRejected
  | Normal None =>
      ReadyResolved
        {| meta := m0; options := o; path := p;
           payload := match initialData o with
                      | Some d => d
                      | None => payload d0
                      end;
           writing := false; scheduled := None |}
  | Normal (Some r) =>
      ReadyResolved
        {| meta := {| createTime := number_of (get (read_meta r) "createTime");
                      lastSync := number_of (get (read_meta r) "lastSync");
                      lastUpdate := number_of (get (read_meta r) "lastUpdate") |};
           options := o; path := p; payload := read_data r;
           writing := false; scheduled := None |}
  end.

(** Line 173. *)
Definition getData (d : JsonDb) : value := payload d.

(** ** The scheduler (lines 183-196 and 245-373)

    A [Runtime] is the store together with what the event loop holds for
    it: the [writeFile] operations in progress, each with the locals of the
    call of [store] suspended on it, and the armed timers.  [tickets] is
    bookkeeping for the proofs: the batches made by [getSchedule] that no
    write has taken up yet.  [log] records what can be observed, newest
    first. *)

Record WriteOp := Wr {
  w_batch : option ScheduledSync;  (* the local [scheduled] of line 290 *)
  w_call : nat;                    (* the promise of this call of [store] *)
  w_content : StoredData;
}.

Inductive effect :=
  | WriteStarted (now : Z) (urgent : bool) (content : StoredData)
  | WriteEnded (now : Z) (ok : bool)
  | Settled (p : nat) (ok : bool).

Record Runtime := Rt {
  db : JsonDb;
  inflight : list WriteOp;
  timers : list (nat * Z);
  tickets : list nat;
  fresh : nat;
  log : list effect;
}.

(** What a call of the [async] method [store] hands back: a promise that
    follows the batch promise [p] (the [return this.scheduled.promise]
    statements), or the call's own promise [p], fulfilled when the body
    runs to its end. *)
Inductive store_result :=
  | Adopts (p : nat)
  | Own (p : nat).

Definition set_scheduled (s : option ScheduledSync) (d : JsonDb) : JsonDb :=
  {| meta := meta d; options := options d; path := path d;
     payload := payload d; writing := writing d; scheduled := s |}.

Definition set_writing (w : bool) (d : JsonDb) : JsonDb :=
  {| meta := meta d; options := options d; path := path d;
     payload := payload d; writing := w; scheduled := scheduled d |}.

Definition set_lastSync (t : Z) (d : JsonDb) : JsonDb :=
  {| meta := {| createTime := createTime (meta d);
                lastUpdate := lastUpdate (meta d); lastSync := t |};
     options := options d; path := path d;
     payload := payload d; writing := writing d; scheduled := scheduled d |}.

Definition with_timer (t : nat) (s : ScheduledSync) : ScheduledSync :=
  {| timer := Some t; doItNow := doItNow s; promise := promise s |}.

Definition with_doItNow (b : bool) (s : ScheduledSync) : ScheduledSync :=
  {| timer := timer s; doItNow := b; promise := promise s |}.

(** Lines 328-344: a batch with a new promise and no timer. *)
Definition getSchedule (now_flag : bool) (rt : Runtime)
    : ScheduledSync * Runtime :=
  ({| timer := None; doItNow := now_flag; promise := fresh rt |},
   {| db := db rt; inflight := inflight rt; timers := timers rt;
      tickets := fresh rt :: tickets rt; fresh := S (fresh rt);
      log := log rt |}).

(** [setTimeout(this.store, wait)] *)
Definition setTimeout (wait : Z) (rt : Runtime) : nat * Runtime :=
  (fresh rt,
   {| db := db rt; inflight := inflight rt;
      timers := (fresh rt, wait) :: timers rt;
      tickets := tickets rt; fresh := S (fresh rt); log := log rt |}).

Definition timer_is (t : nat) (e : nat * Z) : bool := Nat.eqb (fst e) t.

(** [clearTimeout(handle)]; [clearTimeout(undefined)] does nothing. *)
Definition clearTimeout (h : option nat) (rt : Runtime) : Runtime :=
  match h with
  | None => rt
  | Some t =>
      {| db := db rt; inflight := inflight rt;
         timers := List.filter (fun e => negb (timer_is t e)) (timers rt);
         tickets := tickets rt; fresh := fresh rt; log := log rt |}
  end.

Definition drop_ticket (s : option ScheduledSync) (l : list nat) : list nat :=
  match s with
  | None => l
  | Some b => List.filter (fun p => negb (Nat.eqb p (promise b))) l
  end.

(** Lines 353-365: [sync] up to its [await writeFile].  [lastSync] is set
    first, and the content holds the metadata with that new value. *)
Definition sync (now : Z) (d : JsonDb) : StoredData * JsonDb :=
  let d1 := set_lastSync now d in
  let data := match beforeSync (options d1) with
              | Some f => f (payload d1)
              | None => payload d1
              end in
  ({| stored_meta := meta d1; stored_data := data |}, d1).

(** Lines 275-277. *)
Definition waitTime (now_flag : bool) (now : Z) (d : JsonDb) : Z :=
  if now_flag then 0
  else lastSync (meta d) + syncThrottle (options d) - now.

(** Lines 284-298: detach the batch, clear its timer, raise [writing] and
    run [sync] up to [writeFile]; the call is suspended there. *)
Definition start_write (now_flag : bool) (now : Z) (rt : Runtime)
    : store_result * Runtime :=
  let sch := scheduled (db rt) in
  let rt1 := clearTimeout (sch ≫= timer) rt in
  let '(content, d1) :=
    sync now (set_writing true (set_scheduled None (db rt1))) in
  (Own (fresh rt1),
   {| db := d1;
      inflight := inflight rt1 ++ [ {| w_batch := sch; w_call := fresh rt1;
                                       w_content := content |} ];
      timers := timers rt1;
      tickets := drop_ticket sch (tickets rt1);
      fresh := S (fresh rt1);
      log := WriteStarted now now_flag content :: log rt1 |}).

Definition put_db (d : JsonDb) (rt : Runtime) : Runtime :=
  {| db := d; inflight := inflight rt; timers := timers rt;
     tickets := tickets rt; fresh := fresh rt; log := log rt |}.

(** Lines 245-298: [store(doItNow)] up to its first suspension. *)
Definition store (now_flag : bool) (now : Z) (rt : Runtime)
    : store_result * Runtime :=
  if writing (db rt) then
    match scheduled (db rt) with
    | Some s =>
        (Adopts (promise s),
         put_db (set_scheduled
                   (Some (with_doItNow (doItNow s || now_flag) s)) (db rt)) rt)
    | None =>
        let '(s, rt1) := getSchedule now_flag rt in
        (Adopts (promise s), put_db (set_scheduled (Some s) (db rt1)) rt1)
    end
  else
    match scheduled (db rt), now_flag with
    | Some s, false => (Adopts (promise s), rt)
    | _, _ =>
        let w := waitTime now_flag now (db rt) in
        if 0 <? w then
          let '(s, rt1) := getSchedule now_flag rt in
          let '(t, rt2) := setTimeout w rt1 in
          (Adopts (promise s),
           put_db (set_scheduled (Some (with_timer t s)) (db rt2)) rt2)
        else start_write now_flag now rt
    end.

Definition add_log (e : effect) (rt : Runtime) : Runtime :=
  {| db := db rt; inflight := inflight rt; timers := timers rt;
     tickets := tickets rt; fresh := fresh rt; log := e :: log rt |}.

Definition settle_batch (b : option ScheduledSync) (ok : bool)
    (rt : Runtime) : Runtime :=
  match b with
  | None => rt
  | Some s => add_log (Settled (promise s) ok) rt
  end.

(** Lines 307-320: what the call does with a batch made during its write. *)
Definition after_write (now : Z) (rt : Runtime) : Runtime :=
  match scheduled (db rt) with
  | None => rt
  | Some ns =>
      if doItNow ns then snd (store true now rt)
      else
        match timer ns with
        | Some _ => rt
        | None =>
            let w := lastSync (meta (db rt)) + syncThrottle (options (db rt))
                     - now in
            let '(t, rt1) := setTimeout w rt in
            put_db (set_scheduled (Some (with_timer t ns)) (db rt1)) rt1
        end
  end.

(** Lines 298-321: [writeFile] has finished ([ok]) or failed; the suspended
    call resolves or rejects the batch it took up, lowers [writing], looks
    after a batch made meanwhile, and returns: its own promise is fulfilled
    in both cases, the [catch] of line 301 has no [throw]. *)
Definition resume (now : Z) (ok : bool) (rt : Runtime) : Runtime :=
  match inflight rt with
  | [] => rt
  | w :: rest =>
      let rt1 :=
        {| db := db rt; inflight := rest; timers := timers rt;
           tickets := tickets rt; fresh := fresh rt;
           log := WriteEnded now ok :: log rt |} in
      let rt2 := settle_batch (w_batch w) ok rt1 in
      let rt3 := put_db (set_writing false (db rt2)) rt2 in
      add_log (Settled (w_call w) true) (after_write now rt3)
  end.

(** Lines 183-187. *)
Definition update (now : Z) (data : value) (rt : Runtime)
    : store_result * Runtime :=
  let d := db rt in
  let d1 :=
    {| meta := {| createTime := createTime (meta d); lastUpdate := now;
                  lastSync := lastSync (meta d) |};
       options := options d; path := path d;
       payload := assignDeepWithDelete (payload d) data;
       writing := writing d; scheduled := scheduled d |} in
  store false now (put_db d1 rt).

(** Lines 194-196: the promise of [flush] follows that of [store(true)]. *)
Definition flush (now : Z) (rt : Runtime) : store_result * Runtime :=
  store true now rt.

(** A timer calls [this.store] with no argument: [doItNow] is
    [undefined]. *)
Definition fire (t : nat) (now : Z) (rt : Runtime) : Runtime :=
  if existsb (timer_is t) (timers rt) then
    snd (store false now
           {| db := db rt; inflight := inflight rt;
              timers := List.filter (fun e => negb (timer_is t e)) (timers rt);
              tickets := tickets rt; fresh := fresh rt; log := log rt |})
  else rt.

Inductive event :=
  | CallUpdate (now : Z) (data : value)
  | CallFlush (now : Z)
  | TimerFires (t : nat) (now : Z)
  | WriteCompletes (now : Z) (ok : bool).

Definition step (rt : Runtime) (e : event) : Runtime :=
  match e with
  | CallUpdate now data => snd (update now data rt)
  | CallFlush now => snd (flush now rt)
  | TimerFires t now => fire t now rt
  | WriteCompletes now ok => resume now ok rt
  end.

Definition run (rt : Runtime) (es : list event) : Runtime :=
  foldl step rt es.

(** The event loop around a store that has just been loaded. *)
Definition boot (d : JsonDb) : Runtime :=
  {| db := d; inflight := []; timers := []; tickets := []; fresh := 0%nat;
     log := [] |}.

(** *** Reading the log *)

(** How the promise [p] was settled, if it was. *)
Fixpoint outcome (p : nat) (l : list effect) : option bool :=
  match l with
  | [] => None
  | Settled q ok :: l' => if Nat.eqb q p then Some ok else outcome p l'
  | _ :: l' => outcome p l'
  end.

(** What the caller of [update] or [flush] observes of the promise it was
    handed. *)
Definition observed (r : store_result) (rt : Runtime) : option bool :=
  match r with
  | Adopts p | Own p => outcome p (log rt)
  end.

(** The writes started so far, oldest first: start time, urgency and the
    document handed to [writeFile]. *)
Fixpoint writes_of (l : list effect) : list (Z * bool * value) :=
  match l with
  | [] => []
  | WriteStarted t u c :: l' => writes_of l' ++ [(t, u, stored_data c)]
  | _ :: l' => writes_of l'
  end.

Definition writes (rt : Runtime) : list (Z * bool * value) :=
  writes_of (log rt).

(** * What the properties are stated with *)

(** ** Documents *)

Definition is_object (v : value) : bool :=
  match v with
  | VObj _ => true
  | _ => false
  end.

(** Following a path of keys through nested mappings. *)
Fixpoint lookup_path (p : list string) (v : value) : option value :=
  match p with
  | [] => Some v
  | k :: p' =>
      match v with
      | VObj m => m !! k ≫= lookup_path p'
      | _ => None
      end
  end.

(** A place inside a value: the field [k] of a mapping, or the element
    [i] of a sequence. *)
Inductive place :=
  | Key (k : string)
  | Index (i : nat).

(** Following a path of places, through mappings and sequences alike. *)
Fixpoint lookup_at (q : list place) (v : value) : option value :=
  match q with
  | [] => Some v
  | Key k :: q' =>
      match v with
      | VObj m => m !! k ≫= lookup_at q'
      | _ => None
      end
  | Index i :: q' =>
      match v with
      | VArr l => l !! i ≫= lookup_at q'
      | _ => None
      end
  end.

(** ** The scheduler's invariant *)

(** The promise of the pending batch, if there is one. *)
Definition ticket_of (s : option ScheduledSync) : list nat :=
  match s with
  | Some b => [promise b]
  | None => []
  end.

Definition busy (l : list WriteOp) : bool :=
  match l with
  | [] => false
  | _ => true
  end.

(** The armed timers: at most one, and it is the one of the pending
    batch. *)
Definition timers_of (s : option ScheduledSync) (l : list (nat * Z)) : Prop :=
  match l with
  | [] => True
  | [e] => s ≫= timer = Some (fst e)
  | _ => False
  end.

Record consistent (rt : Runtime) : Prop := Consistent {
  c_one_write : (length (inflight rt) <= 1)%nat;
  c_writing : writing (db rt) = busy (inflight rt);
  c_tickets : tickets rt = ticket_of (scheduled (db rt));
  c_timers : timers_of (scheduled (db rt)) (timers rt);
  c_fresh : forall s, scheduled (db rt) = Some s -> (promise s < fresh rt)%nat;
}.

(** ** Writes and calls *)

(** The document as [sync] hands it to [writeFile] (lines 356-358). *)
Definition serialized (d : JsonDb) : value :=
  match beforeSync (options d) with
  | Some f => f (payload d)
  | None => payload d
  end.

Definition is_call (e : event) : bool :=
  match e with
  | CallUpdate _ _ | CallFlush _ => true
  | _ => false
  end.

(** What a call of [update] or [flush] hands back. *)
Definition call_result (rt : Runtime) (e : event) : option store_result :=
  match e with
  | CallUpdate now data => Some (fst (update now data rt))
  | CallFlush now => Some (fst (flush now rt))
  | _ => None
  end.

Fixpoint results (rt : Runtime) (es : list event) : list store_result :=
  match es with
  | [] => []
  | e :: es' =>
      match call_result rt e with
      | Some r => r :: results (step rt e) es'
      | None => results (step rt e) es'
      end
  end.

(** ** The throttle *)

Definition start_time (w : Z * bool * value) : Z := fst (fst w).
Definition urgent (w : Z * bool * value) : bool := snd (fst w).
Definition document (w : Z * bool * value) : value := snd w.

(** When the latest write started. *)
Fixpoint latest_start (l : list effect) : option Z :=
  match l with
  | [] => None
  | WriteStarted t _ _ :: _ => Some t
  | _ :: l' => latest_start l'
  end.

(** Every write that was not urgent started at least [th] after the start
    of the write before it. *)
Fixpoint start_spaced (th : Z) (l : list effect) : Prop :=
  match l with
  | [] => True
  | WriteStarted t u _ :: l' =>
      (u = false -> forall t0, latest_start l' = Some t0 -> t0 + th <= t)
      /\ start_spaced th l'
  | _ :: l' => start_spaced th l'
  end.

(** [lastSync] is the start of the latest write, and the writes are
    spaced. *)
Definition throttled_at (th ls : Z) (l : list effect) : Prop :=
  (forall t, latest_start l = Some t -> ls = t) /\ start_spaced th l.

Definition throttled (rt : Runtime) : Prop :=
  throttled_at (syncThrottle (options (db rt))) (lastSync (meta (db rt)))
    (log rt).

(** The claim of a completion-to-start spacing, read off the log (oldest
    first): for two consecutive writes that were both not urgent, the pair
    of the time the first completed and the time the second started.  The
    state is the urgency of the latest write and, once it has completed,
    when. *)
Fixpoint completion_gaps (st : option (bool * option Z)) (l : list effect)
    : list (Z * Z) :=
  match l with
  | [] => []
  | WriteStarted t u _ :: l' =>
      match st, u with
      | Some (false, Some c), false =>
          (c, t) :: completion_gaps (Some (u, None)) l'
      | _, _ => completion_gaps (Some (u, None)) l'
      end
  | WriteEnded c _ :: l' =>
      completion_gaps (match st with
                       | Some (u, _) => Some (u, Some c)
                       | None => None
                       end) l'
  | Settled _ _ :: l' => completion_gaps st l'
  end.

(** The writes started, plus one for a batch that is pending. *)
Definition potential (rt : Runtime) : nat :=
  (length (writes rt) + length (ticket_of (scheduled (db rt))))%nat.

(** ** The stores and requests of the scenarios *)

Definition scenario_options : JsonDbOptions :=
  with_defaults
    {| u_syncThrottle := Some 100; u_prettify := None;
       u_initialData := Some (VObj ∅); u_throwIfNotExists := None;
       u_beforeSync := None; u_afterLoad := None |}.

Definition no_file : FileSystem := Folder FileMissing.

(** The store that [construct] yields over a missing file at time [t0]. *)
Definition fresh_store (t0 : Z) : JsonDb :=
  {| meta := {| createTime := t0; lastUpdate := 0; lastSync := 0 |};
     options := scenario_options; path := "p"; payload := VObj ∅;
     writing := false; scheduled := None |}.

Definition doc_a1 : value := VObj {[ "a" := VNum 1 ]}.
Definition doc_a2b3 : value := VObj {[ "a" := VNum 2; "b" := VNum 3 ]}.

(** A fresh store whose first update is being written. *)
Definition first_write_run : Runtime :=
  run (boot (fresh_store 1000)) [CallUpdate 1000 doc_a1].

(** The three calls of the scenario, at times [t1], [t2] and [t3]. *)
Definition scenario (t1 t2 t3 : Z) : list event :=
  [CallUpdate t1 doc_a1; CallUpdate t2 doc_a2b3; CallFlush t3].

(** The state in which the scenario calls [flush]. *)
Definition before_flush (t0 t1 t2 : Z) : Runtime :=
  run (boot (fresh_store t0)) [CallUpdate t1 doc_a1; CallUpdate t2 doc_a2b3].

(** Two updates more than the throttle apart, the write of the first
    taking 80 ms. *)
Definition slow_write_run : Runtime :=
  run (boot (fresh_store 1000))
    [CallUpdate 1000 doc_a1; WriteCompletes 1080 true;
     CallUpdate 1100 doc_a2b3].

(** A store with a batch waiting on its timer and no write in flight: the
    second update comes 20 ms after the start of the first write. *)
Definition armed_run : Runtime :=
  run (boot (fresh_store 1000))
    [CallUpdate 1000 doc_a1; WriteCompletes 1010 true;
     CallUpdate 1020 doc_a2b3].

Definition doc_nested : gmap string value :=
  {[ "keep" := VNum 7; "drop" := VNum 8;
     "sub" := VObj {[ "x" := VNum 1; "y" := VNum 2 ]} ]}.


(** An update that deletes inside a nested mapping and holds a [null]
    inside a sequence. *)
Definition upd_deep : gmap string value :=
  {[ "sub" := VObj {[ "y" := VNull ]};
     "list" := VArr [VObj {[ "b" := VNull ]}] ]}.

Definition nested_store : Runtime :=
  boot {| meta := {| createTime := 1; lastUpdate := 1; lastSync := 1 |};
          options := scenario_options; path := "p";
          payload := VObj doc_nested; writing := false; scheduled := None |}.

(** The file is there but [read] cannot use it: [readFile] fails,
    [JSON.parse] fails, or [isValidData] does not return [true]. *)
Definition unusable (st : file_state) : bool :=
  match st with
  | FileMissing => false
  | FileUnreadable | FileUnparsable => true
  | FileParsed raw =>
      match isValidData raw with
      | Normal true => false
      | _ => true
      end
  end.

Definition without_file (fs : FileSystem) : FileSystem :=
  match fs with
  | NoFolder c => NoFolder c
  | Folder _ => Folder FileMissing
  end.

Definition foreign_file : FileSystem :=
  Folder (FileParsed (VObj {[ "notMeta" := VBool true ]})).




(** ** Promises *)

(** The promises that were settled, newest first. *)
Fixpoint settled_ids (l : list effect) : list nat :=
  match l with
  | [] => []
  | Settled p _ :: l' => p :: settled_ids l'
  | _ :: l' => settled_ids l'
  end.

(** The promises tied to a write in progress: the one of the call that
    runs it, and the one of the batch it took up. *)
Definition op_ids (w : WriteOp) : list nat :=
  w_call w :: ticket_of (w_batch w).

(** The promises that are still to be settled. *)
Definition pending (rt : Runtime) : list nat :=
  ticket_of (scheduled (db rt)) ++ flat_map op_ids (inflight rt).

Definition ids (rt : Runtime) : list nat :=
  pending rt ++ settled_ids (log rt).

(** No promise is pending twice, settled twice, or pending and settled;
    and the counter is ahead of all of them. *)
Definition tidy (rt : Runtime) : Prop :=
  NoDup (ids rt) /\ Forall (fun p => (p < fresh rt)%nat) (ids rt).

(** [rt'] has the promises of [rt] and new ones drawn from the counter. *)
Definition extends (rt rt' : Runtime) : Prop :=
  (fresh rt <= fresh rt')%nat /\
  exists new, ids rt' ≡ₚ new ++ ids rt /\ NoDup new /\
              Forall (fun p => (fresh rt <= p < fresh rt')%nat) new.


(** ** The file a write leaves *)







(** Every write in the log carries [ct] as [createTime] and the time it
    started as [lastSync]. *)
Definition stamped (ct : Z) (e : effect) : Prop :=
  match e with
  | WriteStarted t _ c =>
      createTime (stored_meta c) = ct /\ lastSync (stored_meta c) = t
  | _ => True
  end.

(** A flush queued behind a write: the batch with promise [q] is pending
    and urgent, nothing was written beyond [ws], and [q] is not settled. *)
Definition waiting (q : nat) (D : value) (ws : list (Z * bool * value))
    (rt : Runtime) : Prop :=
  writes rt = ws /\ writing (db rt) = true /\ serialized (db rt) = D /\
  (exists s, scheduled (db rt) = Some s /\ promise s = q /\
             doItNow s = true) /\
  outcome q (log rt) = None.

(** One urgent write of [D] was started after [ws], and no batch is left. *)
Definition written (D : value) (ws : list (Z * bool * value))
    (rt : Runtime) : Prop :=
  (exists t, writes rt = ws ++ [(t, true, D)]) /\
  potential rt = S (length ws).

(** The partial updates among the events, in the order of the calls. *)
Fixpoint updates_of (es : list event) : list value :=
  match es with
  | [] => []
  | CallUpdate _ data :: es' => data :: updates_of es'
  | _ :: es' => updates_of es'
  end.

(** When [update] was last called, if it was. *)
Fixpoint last_update_time (es : list event) (t : Z) : Z :=
  match es with
  | [] => t
  | CallUpdate now _ :: es' => last_update_time es' now
  | _ :: es' => last_update_time es' t
  end.

(** * The model of followers ([Model], model-class.ts)

    The class [Model] keeps, in a [JsonDb], the accounts it has seen and,
    for followers and follows, a first snapshot, the current snapshot and
    the differences between consecutive snapshots.  Accounts are named by
    their DID, a string; dates are strings too. *)

Record AccountListSnapshot := Snapshot {
  snapshot_date : string;
  accounts : list string;
}.

(** [added] and [removed] are only set when they are not empty. *)
Record AccountListDiff := Diff {
  diff_date : string;
  added : option (list string);
  removed : option (list string);
}.

(** [l.includes(x)] on strings. *)
Definition includes (l : list string) (x : string) : bool :=
  existsb (String.eqb x) l.

(** Lines 222-247 of the class; [today] is [new Date().toUTCString()].
    [date || today]: an empty [date] counts as none. *)
Definition calculateAccountListDiff (before after : AccountListSnapshot)
    (date : option string) (today : string) : option AccountListDiff :=
  let new_ := List.filter (fun did => negb (includes (accounts before) did))
                (accounts after) in
  let gone := List.filter (fun did => negb (includes (accounts after) did))
                (accounts before) in
  let diff :=
    {| diff_date := match date with
                    | Some (String c s) => String c s
                    | _ => today
                    end;
       added := match new_ with [] => None | _ => Some new_ end;
       removed := match gone with [] => None | _ => Some gone end |} in
  if (0 <? length new_)%nat || (0 <? length gone)%nat then Some diff
  else None.

(** A profile as the remote service gives it: the DID and the rest. *)
Record ProfileView := Profile {
  did : string;
  details : value;
}.

(** [l.findIndex((acc) => acc.did === d)]; [None] is [-1]. *)
Fixpoint findIndex (d : string) (l : list ProfileView) : option nat :=
  match l with
  | [] => None
  | a :: l' =>
      if String.eqb (did a) d then Some 0%nat
      else option_map S (findIndex d l')
  end.

(** Lines 194-214: the array that [addAccount] hands to [update] as
    [knownAccounts], or [None] when it returns without an update. *)
Definition addAccount (known : list ProfileView) (account : ProfileView)
    (onlyIfNew : bool) : option (list ProfileView) :=
  match findIndex (did account) known with
  | None => Some (known ++ [account])
  | Some index =>
      if onlyIfNew then None
      else Some (firstn index known ++ [account] ++ skipn (S index) known)
  end.

(** The accounts after a difference: those not removed, then the added. *)
Definition apply_diff (l : list string) (d : AccountListDiff) : list string :=
  List.filter (fun x => negb (includes (default [] (removed d)) x)) l
  ++ default [] (added d).

(** * Tables of text (utils/tabulate-text.ts)

    Strings are sequences of characters; [String.length] is [.length]. *)

Inductive TabulateTextAlign :=
  | LEFT
  | RIGHT.

(** Lines 6-13; [columns] lists the alignment asked for each column. *)
Record TabulateTextOptions := TextOptions {
  columns : option (list (option TabulateTextAlign));
  paddingInner : option string;
  paddingLeft : option string;
  paddingRight : option string;
}.

(** The object [opt] of line 25, [{ ...DEFAULT_TABULATE_TEXT_OPTIONS,
    options }]: the three default paddings and the caller's options as one
    more property, [options]; it has no [columns] of its own. *)
Record TabulateOpt := Opt {
  opt_columns : option (list (option TabulateTextAlign));
  opt_paddingInner : string;
  opt_paddingLeft : string;
  opt_paddingRight : string;
  opt_options : option TabulateTextOptions;
}.

Definition tabulate_opt (options : option TabulateTextOptions) : TabulateOpt :=
  {| opt_columns := None; opt_paddingInner := " "; opt_paddingLeft := " ";
     opt_paddingRight := " "; opt_options := options |}.

(** Lines 49-51. *)
Definition stripFormat (text : string) : string := text.

Fixpoint spaces (n : nat) : string :=
  match n with
  | O => EmptyString
  | S n' => String " "%char (spaces n')
  end.

(** [text.padEnd(n, ' ')] and [text.padStart(n, ' ')]. *)
Definition padEnd (text : string) (n : nat) : string :=
  String.append text (spaces (n - String.length text)).

Definition padStart (text : string) (n : nat) : string :=
  String.append (spaces (n - String.length text)) text.

(** The callback of [reduce] (lines 26-30): [widths[i] || 0] is 0 where
    the row is longer than the widths so far. *)
Definition next_widths (widths : list nat) (row : list string) : list nat :=
  imap (fun i col => Nat.max (String.length (stripFormat col))
                       (nth i widths 0%nat)) row.

Definition column_widths (table : list (list string)) : list nat :=
  fold_left next_widths table [].

(** Lines 32-38; [widths[col]] undefined pads to nothing. *)
Definition pad (opt : TabulateOpt) (widths : list nat) (col : nat)
    (text : string) : string :=
  match opt_columns opt ≫= (fun cs => nth col cs None) with
  | Some RIGHT => padStart text (nth col widths 0%nat)
  | _ => padEnd text (nth col widths 0%nat)
  end.

(** Lines 21-46. *)
Definition tabulateText (table : list (list string))
    (options : option TabulateTextOptions) : list string :=
  let opt := tabulate_opt options in
  let widths := column_widths table in
  map (fun row =>
         String.append (opt_paddingLeft opt)
           (String.append
              (String.concat (opt_paddingInner opt) (imap (pad opt widths) row))
              (opt_paddingRight opt)))
      table.

(** The longest cell of column [j]. *)
Definition column_max (j : nat) (table : list (list string)) : nat :=
  fold_right Nat.max 0%nat
    (map (fun row => String.length (nth j row EmptyString)) table).

(** * Environment variables (utils/env-vars.ts) *)

(** The values of [AppEnvVars]: a flag or a string. *)
Inductive env_value :=
  | EnvBool (b : bool)
  | EnvString (s : string).

(** Lines 9-20.  The hook [value] returns, or throws an error whose text
    is the right-hand case. *)
Record EnvVarDef := EnvDef {
  def_name : string;
  def_optional : bool;
  def_default : option env_value;
  def_value : option (string -> env_value + string);
  def_secret : bool;
}.

(** An element of the list given to [readEnvVars]: a name or a
    definition. *)
Inductive name_or_def :=
  | JustName (n : string)
  | Def (d : EnvVarDef).

(** Line 57. *)
Definition as_def (nd : name_or_def) : EnvVarDef :=
  match nd with
  | JustName n =>
      {| def_name := n; def_optional := false; def_default := None;
         def_value := None; def_secret := false |}
  | Def d => d
  end.

Definition newline : string := String (ascii_of_nat 10) EmptyString.

Definition not_provided (n : string) : string :=
  String.append "process.env." (String.append n " is not provided").

(** The callback of [reduce] (lines 56-77), on the data and the errors
    gathered so far; [env] is [process.env]. *)
Definition read_one (env : gmap string string)
    (acc : gmap string env_value * list string) (nd : name_or_def)
    : gmap string env_value * list string :=
  let '(data, errors) := acc in
  let def := as_def nd in
  match env !! def_name def with
  | None =>
      if negb (def_optional def)
      then (data, errors ++ [not_provided (def_name def)])
      else
        match def_default def with
        | Some v => (<[def_name def := v]> data, errors)
        | None => (data, errors)
        end
  | Some raw =>
      match def_value def with
      | Some f =>
          match f raw with
          | inl v => (<[def_name def := v]> data, errors)
          | inr e => (data, errors ++ [e])
          end
      | None => (<[def_name def := EnvString raw]> data, errors)
      end
  end.

Definition errors_header : string :=
  String.append "Errors found when reading the environment variables:"
    newline.

(** Lines 54-87: the data, or the text of the error thrown. *)
Definition readEnvVars (defs : list name_or_def) (env : gmap string string)
    : gmap string env_value + string :=
  let '(data, errors) := fold_left (read_one env) defs (∅, []) in
  match errors with
  | [] => inl data
  | _ => inr (String.append errors_header (String.concat newline errors))
  end.

Definition lower_char (c : ascii) : ascii :=
  let n := nat_of_ascii c in
  if (65 <=? n)%nat && (n <=? 90)%nat then ascii_of_nat (n + 32) else c.

(** [raw.toLowerCase()], on the characters a variable can name a flag
    with. *)
Fixpoint toLowerCase (s : string) : string :=
  match s with
  | EmptyString => EmptyString
  | String c s' => String (lower_char c) (toLowerCase s')
  end.

(** Lines 27-30. *)
Definition print_flag (raw : string) : env_value + string :=
  let lc := toLowerCase raw in
  inl (EnvBool (String.eqb lc "1" || String.eqb lc "t"
                || String.eqb lc "true" || String.eqb lc "on")).

(** Lines 22-37. *)
Definition ENV_VARS : list name_or_def :=
  [ Def {| def_name := "PRINT_ENV_VARS"; def_optional := true;
           def_default := Some (EnvBool false);
           def_value := Some print_flag; def_secret := false |};
    Def {| def_name := "BLUESKY_ACCOUNT_NAME"; def_optional := false;
           def_default := None; def_value := None; def_secret := false |};
    Def {| def_name := "BLUESKY_PASSWORD"; def_optional := false;
           def_default := None; def_value := None; def_secret := true |} ].

(** [.] of a regular expression matches every character but the line
    terminators. *)
Definition line_terminator (c : ascii) : bool :=
  let n := nat_of_ascii c in (n =? 10)%nat || (n =? 13)%nat.

(** [text.replace(/./g, '*')] *)
Fixpoint mask (s : string) : string :=
  match s with
  | EmptyString => EmptyString
  | String c s' =>
      String (if line_terminator c then c else "*"%char) (mask s')
  end.

(** [envVars[name] || ''], as the template of line 47 prints it. *)
Definition shown (v : option env_value) : string :=
  match v with
  | Some (EnvBool true) => "true"
  | Some (EnvString s) => s
  | _ => EmptyString
  end.

(** Lines 42-49: the lines that [printEnvVars] prints. *)
Definition printEnvVars_lines (defs : list name_or_def)
    (envVars : gmap string env_value) : list string :=
  map (fun nd =>
         let def := as_def nd in
         let value := shown (envVars !! def_name def) in
         let value := if def_secret def then mask value else value in
         String.append " - "
           (String.append (def_name def) (String.append ": " value)))
      defs.

(** What one definition yields: a value, nothing, or an error. *)
Definition env_result (env : gmap string string) (d : EnvVarDef)
    : option env_value + string :=
  match env !! def_name d with
  | None =>
      if def_optional d then inl (def_default d)
      else inr (not_provided (def_name d))
  | Some raw =>
      match def_value d with
      | Some f =>
          match f raw with
          | inl v => inl (Some v)
          | inr e => inr e
          end
      | None => inl (Some (EnvString raw))
      end
  end.

(** The errors of the definitions, in their order. *)
Definition errors_of (env : gmap string string) (defs : list name_or_def)
    : list string :=
  flat_map (fun nd => match env_result env (as_def nd) with
                      | inl _ => []
                      | inr e => [e]
                      end) defs.

(** * The client of the remote service ([Bsky], utils/bsky/index.ts)

    The service is not part of the program: what it answers is an input.
    [login_ok] says whether [agent.login] succeeds, and [answers] lists what
    the list requests get, in the order they are made; [None] is a request
    that fails. *)

Record Page := MkPage {
  page_cursor : option string;
  page_profiles : list ProfileView;
}.

Inductive request :=
  | LoginRequest (identifier password : string)
  | ListRequest (actor : string) (limit : nat) (cursor : option string).

(** How a call of an [async] method ends: with a value, with an error, or
    not at all (the answers ran out). *)
Inductive call_end (A : Type) :=
  | Returned (a : A)
  | Rejected
  | Unanswered.
Arguments Returned {A} a.
Arguments Rejected {A}.
Arguments Unanswered {A}.

Record Bsky := MkBsky {
  identifier : string;
  password : string;
  loggedIn : bool;
}.

(** [while (res.data.cursor)]: an absent or empty cursor ends the loop. *)
Definition more_pages (c : option string) : bool :=
  match c with
  | Some (String _ _) => true
  | _ => false
  end.

(** Lines 96-106, up to the call of [cb]: whether the login went through,
    the client afterwards, and the request made.  [decode] is
    [Buffer.from(_, 'base64').toString()]. *)
Definition withLogin (decode : string -> string) (login_ok : bool)
    (b : Bsky) : bool * Bsky * list request :=
  if loggedIn b then (true, b, [])
  else
    let req := LoginRequest (identifier b) (decode (password b)) in
    if login_ok
    then (true, {| identifier := identifier b; password := password b;
                   loggedIn := true |}, [req])
    else (false, b, [req]).

(** The loop of lines 56-66 and 79-89, one answer per turn: the end of the
    call, the client afterwards, the requests made and the answers left. *)
Fixpoint fetch_pages (decode : string -> string) (login_ok : bool)
    (answers : list (option Page)) (b : Bsky) (cursor : option string)
    (followers : list ProfileView)
    : call_end (list ProfileView) * Bsky * list request
      * list (option Page) :=
  let '(ok, b1, login_reqs) := withLogin decode login_ok b in
  if negb ok then (Rejected, b1, login_reqs, answers)
  else
    let req := ListRequest (identifier b1) 100 cursor in
    match answers with
    | [] => (Unanswered, b1, login_reqs ++ [req], [])
    | None :: rest => (Rejected, b1, login_reqs ++ [req], rest)
    | Some res :: rest =>
        let followers' := followers ++ page_profiles res in
        if more_pages (page_cursor res)
        then
          let '(e, b2, reqs, remaining) :=
            fetch_pages decode login_ok rest b1 (page_cursor res)
              followers' in
          (e, b2, login_reqs ++ [req] ++ reqs, remaining)
        else (Returned followers', b1, login_reqs ++ [req], rest)
    end.

(** Lines 50-68; [answers] are the answers to [agent.getFollowers]. *)
Definition getFollowers (decode : string -> string) (login_ok : bool)
    (answers : list (option Page)) (b : Bsky) :=
  fetch_pages decode login_ok answers b None [].

(** Lines 73-91; [answers] are the answers to [agent.getFollows]. *)
Definition getFollows (decode : string -> string) (login_ok : bool)
    (answers : list (option Page)) (b : Bsky) :=
  fetch_pages decode login_ok answers b None [].

(** The cursors sent with the requests for a run of pages. *)
Definition cursors_sent (pages : list Page) : list (option string) :=
  None :: map page_cursor pages.

(** ** The summary of the model (lines 96-119 of the class) *)

Record AccountList := MkAccountList {
  current : option AccountListSnapshot;
  initial : option AccountListSnapshot;
  diffs : list AccountListDiff;
}.

Record ModelData := MkModelData {
  account : string;
  followers : AccountList;
  follows : AccountList;
  knownAccounts : list ProfileView;
}.

(** The numbers that [getSummary] computes with: a time in milliseconds,
    [NaN] (the time of a date that does not parse) or [-Infinity] (the
    maximum of no number at all). *)
Inductive jsnum :=
  | NaN
  | NegInfinity
  | Num (z : Z).

Definition max2 (a b : jsnum) : jsnum :=
  match a, b with
  | NaN, _ | _, NaN => NaN
  | NegInfinity, x | x, NegInfinity => x
  | Num x, Num y => Num (Z.max x y)
  end.

(** [Math.max(...l)] *)
Definition math_max (l : list jsnum) : jsnum := fold_right max2 NegInfinity l.

(** [!x] on these numbers. *)
Definition falsy_num (x : jsnum) : bool :=
  match x with
  | NaN => true
  | NegInfinity => false
  | Num z => z =? 0
  end.

Record ModelState := MkModelState {
  timestamp : jsnum;
  followers_count : nat;
  follows_count : nat;
}.

(** [l[l.length - 1]?.date] *)
Definition last_diff_date (l : list AccountListDiff) : option string :=
  diff_date <$> last l.

(** The dates of lines 103-106 that are defined. *)
Definition summary_dates (data : ModelData) : list string :=
  omap id [ last_diff_date (diffs (followers data));
            last_diff_date (diffs (follows data));
            snapshot_date <$> initial (followers data);
            snapshot_date <$> initial (follows data) ].

(** Lines 96-119; [getTime] is [new Date(date).getTime()]. *)
Definition getSummary (getTime : string -> jsnum) (data : ModelData)
    : option ModelState :=
  let t := math_max (map getTime (summary_dates data)) in
  if falsy_num t then None
  else Some {| timestamp := t;
               followers_count :=
                 default 0%nat (length ∘ accounts <$> current (followers data));
               follows_count :=
                 default 0%nat (length ∘ accounts <$> current (follows data)) |}.

(** * Properties *)

(** ** The merge *)

(** The field [k] of the merged document, case by case on the field [k] of
    the update. *)
Lemma assign_obj_lookup (dm um : gmap string value) (k : string) :
  assign_obj dm um !! k =
    match um !! k with
    | None => dm !! k
    | Some VNull => None
    | Some (VObj um') =>
        match dm !! k with
        | Some (VObj dm') => Some (VObj (assign_obj dm' um'))
        | _ => Some (VObj (assign_obj ∅ um'))
        end
    | Some v => Some v
    end.
Proof.
  unfold assign_obj. rewrite lookup_merge, lookup_fmap.
  destruct (um !! k) as [u|] eqn:Hu; simpl.
  - destruct (dm !! k) as [d|] eqn:Hd; simpl; destruct u; reflexivity.
  - destruct (dm !! k); reflexivity.
Qed.

Lemma lookup_path_not_object (p : list string) (v : value) :
  is_object v = false -> p <> [] -> lookup_path p v = None.
Proof. destruct p, v; simpl; congruence. Qed.

Lemma lookup_path_empty_object (p : list string) :
  p <> [] -> lookup_path p (VObj ∅) = None.
Proof.
  destruct p as [|k p]; [congruence|]. intros _. simpl.
  rewrite lookup_empty. reflexivity.
Qed.

(** A null found in the merged document was in the document before, at the
    same place: the merge never writes one. *)
Lemma assign_obj_no_new_null (p : list string) :
  forall dm um : gmap string value,
    p <> [] ->
    lookup_path p (VObj (assign_obj dm um)) = Some VNull ->
    lookup_path p (VObj dm) = Some VNull.
Proof.
  induction p as [|k p IH]; intros dm um Hp H; [congruence|].
  simpl in *. rewrite assign_obj_lookup in H.
  destruct (um !! k) as [u|] eqn:Hu; [|exact H].
  destruct p as [|k' p'].
  - simpl in H.
    destruct u; simpl in H; try discriminate;
      destruct (dm !! k) as [[]|]; simpl in H; discriminate.
  - assert (Hne : k' :: p' <> []) by congruence.
    destruct u; try discriminate;
      try (simpl in H; rewrite lookup_path_not_object in H
             by (reflexivity || exact Hne); discriminate).
    destruct (dm !! k) as [d|] eqn:Hd.
    + destruct d;
        try (cbn [mbind option_bind] in H; apply IH in H; [|exact Hne];
             rewrite lookup_path_empty_object in H by exact Hne;
             discriminate).
      cbn [mbind option_bind] in H |- *. apply IH in H; [exact H|exact Hne].
    + cbn [mbind option_bind] in H. apply IH in H; [|exact Hne].
      rewrite lookup_path_empty_object in H by exact Hne. discriminate.
Qed.

(** ** What [store] never touches *)

Lemma store_static (f : bool) (now : Z) (rt : Runtime) :
  let d' := db (snd (store f now rt)) in
  payload d' = payload (db rt) /\ options d' = options (db rt) /\
  path d' = path (db rt) /\
  createTime (meta d') = createTime (meta (db rt)) /\
  lastUpdate (meta d') = lastUpdate (meta (db rt)).
Proof.
  unfold store, start_write, getSchedule, setTimeout, sync, clearTimeout.
  simpl. repeat case_match; simplify_eq; simpl; auto.
Qed.

Lemma after_write_static (now : Z) (rt : Runtime) :
  let d' := db (after_write now rt) in
  payload d' = payload (db rt) /\ options d' = options (db rt) /\
  path d' = path (db rt) /\
  createTime (meta d') = createTime (meta (db rt)) /\
  lastUpdate (meta d') = lastUpdate (meta (db rt)).
Proof.
  unfold after_write, setTimeout. simpl.
  repeat case_match; simplify_eq; simpl; auto.
  apply store_static.
Qed.

Lemma resume_static (now : Z) (ok : bool) (rt : Runtime) :
  let d' := db (resume now ok rt) in
  payload d' = payload (db rt) /\ options d' = options (db rt) /\
  path d' = path (db rt) /\
  createTime (meta d') = createTime (meta (db rt)) /\
  lastUpdate (meta d') = lastUpdate (meta (db rt)).
Proof.
  unfold resume. destruct (inflight rt) as [|w rest]; [simpl; auto|].
  cbv zeta.
  match goal with |- context [after_write now ?r] =>
    pose proof (after_write_static now r) as H; cbv zeta in H end.
  destruct H as (H1 & H2 & H3 & H4 & H5).
  repeat split; (etransitivity; [eassumption|]);
    destruct (w_batch w); reflexivity.
Qed.

Lemma step_static (rt : Runtime) (e : event) :
  let d' := db (step rt e) in
  options d' = options (db rt) /\ path d' = path (db rt) /\
  createTime (meta d') = createTime (meta (db rt)).
Proof.
  destruct e as [now data|now|t now|now ok]; cbv zeta; simpl.
  - unfold update.
    match goal with |- context [store false now ?r] =>
      pose proof (store_static false now r) as H; cbv zeta in H end.
    destruct H as (_ & H2 & H3 & H4 & _). rewrite H2, H3, H4. auto.
  - unfold flush. pose proof (store_static true now rt) as H. cbv zeta in H.
    destruct H as (_ & H2 & H3 & H4 & _). auto.
  - unfold fire. destruct (existsb (timer_is t) (timers rt)); [|auto].
    match goal with |- context [store false now ?r] =>
      pose proof (store_static false now r) as H; cbv zeta in H end.
    destruct H as (_ & H2 & H3 & H4 & _). rewrite H2, H3, H4. auto.
  - pose proof (resume_static now ok rt) as H. cbv zeta in H.
    destruct H as (_ & H2 & H3 & H4 & _). auto.
Qed.

Lemma run_static (es : list event) :
  forall rt : Runtime,
    options (db (run rt es)) = options (db rt) /\
    path (db (run rt es)) = path (db rt) /\
    createTime (meta (db (run rt es))) = createTime (meta (db rt)).
Proof.
  induction es as [|e es IH]; intros rt; [auto|].
  simpl. destruct (IH (step rt e)) as (H1 & H2 & H3).
  pose proof (step_static rt e) as H. cbv zeta in H.
  destruct H as (G1 & G2 & G3). rewrite H1, H2, H3. auto.
Qed.

(** ** The scheduler's invariant *)

Lemma boot_consistent (d : JsonDb) :
  writing d = false -> scheduled d = None -> consistent (boot d).
Proof.
  intros Hw Hs. split; simpl; rewrite ?Hw, ?Hs; auto. discriminate.
Qed.

Lemma timers_of_none (l : list (nat * Z)) : timers_of None l -> l = [].
Proof. destruct l as [|e [|e' l]]; simpl; [auto|discriminate|tauto]. Qed.

Lemma timers_of_unarmed (s : ScheduledSync) (l : list (nat * Z)) :
  timer s = None -> timers_of (Some s) l -> l = [].
Proof.
  intros Ht. destruct l as [|e [|e' l]]; simpl; [auto| |tauto].
  rewrite Ht. discriminate.
Qed.

Lemma timers_of_clear (s : option ScheduledSync) (rt : Runtime) :
  timers_of s (timers rt) -> timers (clearTimeout (s ≫= timer) rt) = [].
Proof.
  destruct (timers rt) as [|e [|e' l]] eqn:Hl; simpl; [| |tauto].
  - intros _. destruct (s ≫= timer); simpl; rewrite ?Hl; reflexivity.
  - intros ->. simpl. rewrite Hl. simpl. unfold timer_is.
    rewrite Nat.eqb_refl. reflexivity.
Qed.

Lemma busy_false (l : list WriteOp) : busy l = false -> l = [].
Proof. destruct l; [auto|discriminate]. Qed.

Lemma start_write_consistent (f : bool) (now : Z) (rt : Runtime) :
  consistent rt -> writing (db rt) = false ->
  consistent (snd (start_write f now rt)).
Proof.
  intros [H1 H2 H3 H4 H5] Hw.
  rewrite Hw in H2. symmetry in H2. apply busy_false in H2.
  pose proof (timers_of_clear _ _ H4) as Hc.
  unfold start_write. simpl.
  assert (Hi : inflight (clearTimeout (scheduled (db rt) ≫= timer) rt) = [])
    by (destruct (scheduled (db rt) ≫= timer); simpl; exact H2).
  assert (Hk : tickets (clearTimeout (scheduled (db rt) ≫= timer) rt)
               = tickets rt)
    by (destruct (scheduled (db rt) ≫= timer); reflexivity).
  split; simpl; rewrite ?Hi, ?Hc, ?Hk; simpl; auto.
  - rewrite H3. destruct (scheduled (db rt)); simpl; [|reflexivity].
    rewrite Nat.eqb_refl. reflexivity.
  - discriminate.
Qed.

Lemma store_consistent (f : bool) (now : Z) (rt : Runtime) :
  consistent rt -> consistent (snd (store f now rt)).
Proof.
  intros HC. pose proof HC as [H1 H2 H3 H4 H5]. unfold store.
  destruct (writing (db rt)) eqn:Hw.
  - destruct (scheduled (db rt)) as [s|] eqn:Hs; simpl.
    + split; simpl; auto; try congruence.
      intros s' [= <-]. simpl. eauto.
    + split; simpl; auto; try congruence.
      * rewrite H3. reflexivity.
      * intros s' [= <-]. simpl. lia.
  - assert (Hgo : (f = true \/ scheduled (db rt) = None) ->
        consistent
          (snd (let w := waitTime f now (db rt) in
                if 0 <? w
                then
                  let '(s, rt1) := getSchedule f rt in
                  let '(t, rt2) := setTimeout w rt1 in
                  (Adopts (promise s),
                   put_db (set_scheduled (Some (with_timer t s)) (db rt2)) rt2)
                else start_write f now rt))).
    { intros Hor. cbv zeta.
      destruct (0 <? waitTime f now (db rt)) eqn:Hlt.
      - assert (Hn : scheduled (db rt) = None).
        { destruct Hor as [-> | Hn]; [|exact Hn].
          unfold waitTime in Hlt. simpl in Hlt. discriminate. }
        rewrite Hn in *. apply timers_of_none in H4.
        split; simpl; rewrite ?H4; simpl; auto; try congruence.
        + rewrite H3. reflexivity.
        + intros s' [= <-]. simpl. lia.
      - apply start_write_consistent; assumption. }
    destruct (scheduled (db rt)) as [s|] eqn:Hs; destruct f; simpl;
      try exact HC; apply Hgo; auto.
Qed.

Lemma add_log_consistent (e : effect) (rt : Runtime) :
  consistent rt -> consistent (add_log e rt).
Proof. intros [H1 H2 H3 H4 H5]. split; simpl; auto. Qed.

Lemma after_write_consistent (now : Z) (rt : Runtime) :
  consistent rt -> consistent (after_write now rt).
Proof.
  intros HC. unfold after_write.
  destruct (scheduled (db rt)) as [ns|] eqn:Hs; [|exact HC].
  destruct (doItNow ns); [apply store_consistent; exact HC|].
  destruct (timer ns) eqn:Ht; [exact HC|].
  destruct HC as [H1 H2 H3 H4 H5]. rewrite Hs in *.
  apply (timers_of_unarmed _ _ Ht) in H4.
  split; simpl; rewrite ?H4; simpl; auto.
  intros s' [= <-]. simpl. specialize (H5 ns eq_refl). lia.
Qed.

Lemma resume_consistent (now : Z) (ok : bool) (rt : Runtime) :
  consistent rt -> consistent (resume now ok rt).
Proof.
  intros HC. unfold resume.
  destruct (inflight rt) as [|w rest] eqn:Hi; [exact HC|].
  apply add_log_consistent, after_write_consistent.
  destruct HC as [H1 H2 H3 H4 H5]. rewrite Hi in H1. simpl in H1.
  assert (rest = []) as -> by (destruct rest; [reflexivity|simpl in H1; lia]).
  destruct (w_batch w); split; simpl; auto.
Qed.

Lemma update_consistent (now : Z) (data : value) (rt : Runtime) :
  consistent rt -> consistent (snd (update now data rt)).
Proof.
  intros [H1 H2 H3 H4 H5]. unfold update. apply store_consistent.
  split; simpl; auto.
Qed.

Lemma fire_consistent (t : nat) (now : Z) (rt : Runtime) :
  consistent rt -> consistent (fire t now rt).
Proof.
  intros HC. unfold fire.
  destruct (existsb (timer_is t) (timers rt)) eqn:He; [|exact HC].
  apply store_consistent. destruct HC as [H1 H2 H3 H4 H5].
  split; simpl; auto.
  destruct (timers rt) as [|e [|e' l]]; simpl in *; [exact I| |tauto].
  rewrite orb_false_r in He. rewrite He. exact I.
Qed.

Lemma step_consistent (rt : Runtime) (e : event) :
  consistent rt -> consistent (step rt e).
Proof.
  destruct e; simpl.
  - apply update_consistent.
  - apply store_consistent.
  - apply fire_consistent.
  - apply resume_consistent.
Qed.

Lemma run_consistent (es : list event) :
  forall rt : Runtime, consistent rt -> consistent (run rt es).
Proof.
  induction es as [|e es IH]; intros rt HC; [exact HC|].
  simpl. apply IH, step_consistent, HC.
Qed.

Lemma construct_idle (p : string) (o : JsonDbOptions) (now : Z)
    (fs : FileSystem) (d : JsonDb) :
  construct p o now fs = ReadyResolved d ->
  writing d = false /\ scheduled d = None /\ options d = o.
Proof.
  unfold construct. destruct (fst (read o fs)) as [|[r|]]; intros [= <-];
    auto.
Qed.

(** ** A timer that fires starts nothing

    The callback of [setTimeout] is [this.store] itself, called with
    [doItNow] undefined: the batch whose timer fired is still in
    [this.scheduled], so the call returns at line 268 (or at line 253 when a
    write is in flight). *)
Lemma fire_writes (t : nat) (now : Z) (rt : Runtime) :
  consistent rt -> writes (fire t now rt) = writes rt.
Proof.
  intros [H1 H2 H3 H4 H5]. unfold fire.
  destruct (existsb (timer_is t) (timers rt)) eqn:He; [|reflexivity].
  destruct (timers rt) as [|e [|e' l]]; simpl in *; [discriminate| |tauto].
  destruct (scheduled (db rt)) as [s|] eqn:Hs; [|discriminate].
  unfold store. simpl. rewrite Hs.
  destruct (writing (db rt)); reflexivity.
Qed.

(** ** One call of [store]: either nothing is written, or one write starts *)

Lemma clearTimeout_keeps (h : option nat) (rt : Runtime) :
  db (clearTimeout h rt) = db rt /\ log (clearTimeout h rt) = log rt /\
  inflight (clearTimeout h rt) = inflight rt /\
  fresh (clearTimeout h rt) = fresh rt /\
  tickets (clearTimeout h rt) = tickets rt.
Proof. destruct h; simpl; auto. Qed.

Lemma start_write_spec (f : bool) (now : Z) (rt : Runtime) :
  let rt' := snd (start_write f now rt) in
  fst (start_write f now rt) = Own (fresh rt) /\
  log rt' =
    WriteStarted now f
      {| stored_meta := {| createTime := createTime (meta (db rt));
                           lastUpdate := lastUpdate (meta (db rt));
                           lastSync := now |};
         stored_data := serialized (db rt) |} :: log rt /\
  lastSync (meta (db rt')) = now /\
  writing (db rt') = true /\
  scheduled (db rt') = None /\
  fresh rt' = S (fresh rt).
Proof.
  unfold start_write.
  destruct (clearTimeout_keeps (scheduled (db rt) ≫= timer) rt)
    as (E1 & E2 & E3 & E4 & E5).
  simpl. rewrite E1, E2, E4. auto 10.
Qed.

Lemma store_cases (f : bool) (now : Z) (rt : Runtime) :
  let rt' := snd (store f now rt) in
  (log rt' = log rt /\
   lastSync (meta (db rt')) = lastSync (meta (db rt)) /\
   writing (db rt') = writing (db rt) /\
   inflight rt' = inflight rt /\
   exists s, scheduled (db rt') = Some s /\
             fst (store f now rt) = Adopts (promise s))
  \/
  (rt' = snd (start_write f now rt) /\
   fst (store f now rt) = Own (fresh rt) /\
   writing (db rt) = false /\
   (f = false -> scheduled (db rt) = None /\
      lastSync (meta (db rt)) + syncThrottle (options (db rt)) <= now)).
Proof.
  cbv zeta. unfold store.
  destruct (writing (db rt)) eqn:Hw.
  - left. destruct (scheduled (db rt)) as [s|] eqn:Hs; simpl; eauto 10.
  - assert (Hgo : (f = true \/ scheduled (db rt) = None) ->
      let r := (let w := waitTime f now (db rt) in
                if 0 <? w
                then
                  let '(s, rt1) := getSchedule f rt in
                  let '(t, rt2) := setTimeout w rt1 in
                  (Adopts (promise s),
                   put_db (set_scheduled (Some (with_timer t s)) (db rt2)) rt2)
                else start_write f now rt) in
      (log (snd r) = log rt /\
       lastSync (meta (db (snd r))) = lastSync (meta (db rt)) /\
       writing (db (snd r)) = false /\
       inflight (snd r) = inflight rt /\
       exists s, scheduled (db (snd r)) = Some s /\
                 fst r = Adopts (promise s))
      \/
      (snd r = snd (start_write f now rt) /\
       fst r = Own (fresh rt) /\
       false = false /\
       (f = false -> scheduled (db rt) = None /\
          lastSync (meta (db rt)) + syncThrottle (options (db rt)) <= now))).
    { intros Hor. cbv zeta.
      destruct (0 <? waitTime f now (db rt)) eqn:Hlt.
      - left. simpl. rewrite Hw. eauto 10.
      - right. split; [reflexivity|]. split; [apply start_write_spec|].
        split; [reflexivity|]. intros ->.
        destruct Hor as [|Hn]; [discriminate|]. split; [exact Hn|].
        unfold waitTime in Hlt. apply Z.ltb_ge in Hlt. lia. }
    destruct (scheduled (db rt)) as [s|] eqn:Hs; destruct f;
      try (apply Hgo; auto; fail).
    left. simpl. rewrite Hs. eauto 10.
Qed.

Lemma writes_of_start (t : Z) (u : bool) (c : StoredData) (l : list effect) :
  writes_of (WriteStarted t u c :: l) = writes_of l ++ [(t, u, stored_data c)].
Proof. reflexivity. Qed.

(** ** Requests made while a write is in flight *)

(** During a write, [store] only makes or updates the pending batch. *)
Lemma store_while_writing (f : bool) (now : Z) (rt : Runtime) :
  writing (db rt) = true ->
  let rt' := snd (store f now rt) in
  log rt' = log rt /\ inflight rt' = inflight rt /\
  writing (db rt') = true /\
  exists s, scheduled (db rt') = Some s /\
            fst (store f now rt) = Adopts (promise s) /\
            (f = true -> doItNow s = true) /\
            forall s0, scheduled (db rt) = Some s0 ->
                       promise s = promise s0 /\
                       (doItNow s0 = true -> doItNow s = true).
Proof.
  intros Hw. cbv zeta. unfold store. rewrite Hw.
  destruct (scheduled (db rt)) as [s|] eqn:Hs; simpl.
  - split; [reflexivity|]. split; [reflexivity|]. split; [exact Hw|].
    eexists. split; [reflexivity|]. split; [reflexivity|]. simpl. split.
    + intros ->. apply orb_true_r.
    + intros ? [= <-]. split; [reflexivity|]. intros ->. reflexivity.
  - split; [reflexivity|]. split; [reflexivity|]. split; [exact Hw|].
    eexists. split; [reflexivity|]. split; [reflexivity|]. simpl. split.
    + auto.
    + discriminate.
Qed.

Lemma call_while_writing (rt : Runtime) (e : event) :
  is_call e = true -> writing (db rt) = true ->
  log (step rt e) = log rt /\ inflight (step rt e) = inflight rt /\
  writing (db (step rt e)) = true /\
  exists s, scheduled (db (step rt e)) = Some s /\
            call_result rt e = Some (Adopts (promise s)) /\
            forall s0, scheduled (db rt) = Some s0 -> promise s = promise s0.
Proof.
  intros He Hw. destruct e as [now data|now| |]; try discriminate; simpl.
  - unfold update.
    match goal with |- context [store false now ?r] =>
      destruct (store_while_writing false now r Hw)
        as (H1 & H2 & H3 & s & H4 & H5 & _ & H6) end.
    repeat split; auto. exists s. repeat split; auto.
    + rewrite H5. reflexivity.
    + intros s0 Hs0. apply (H6 s0 Hs0).
  - unfold flush.
    destruct (store_while_writing true now rt Hw)
      as (H1 & H2 & H3 & s & H4 & H5 & _ & H6).
    repeat split; auto. exists s. repeat split; auto.
    + rewrite H5. reflexivity.
    + intros s0 Hs0. apply (H6 s0 Hs0).
Qed.

Lemma calls_while_writing (calls : list event) :
  forall rt : Runtime,
    forallb is_call calls = true -> writing (db rt) = true ->
    log (run rt calls) = log rt /\
    inflight (run rt calls) = inflight rt /\
    writing (db (run rt calls)) = true /\
    (forall s0, scheduled (db rt) = Some s0 ->
       exists s, scheduled (db (run rt calls)) = Some s /\
                 promise s = promise s0) /\
    forall r, In r (results rt calls) ->
      exists s, scheduled (db (run rt calls)) = Some s /\
                r = Adopts (promise s).
Proof.
  induction calls as [|e calls IH]; intros rt Hc Hw.
  - simpl. repeat split; auto; [eauto|tauto].
  - simpl in Hc. apply andb_true_iff in Hc as [He Hc].
    destruct (call_while_writing rt e He Hw)
      as (H1 & H2 & H3 & s & H4 & H5 & H6).
    destruct (IH (step rt e) Hc H3) as (G1 & G2 & G3 & G4 & G5).
    simpl. rewrite G1, G2, H1, H2. repeat split; auto.
    + intros s0 Hs0. destruct (G4 s H4) as (s' & Hs' & Hp).
      exists s'. split; [exact Hs'|]. rewrite Hp. apply (H6 s0 Hs0).
    + intros r. rewrite H5. intros [<- | Hr].
      * destruct (G4 s H4) as (s' & Hs' & Hp). exists s'.
        split; [exact Hs'|]. rewrite Hp. reflexivity.
      * apply (G5 r Hr).
Qed.

Lemma run_app (rt : Runtime) (es1 es2 : list event) :
  run rt (es1 ++ es2) = run (run rt es1) es2.
Proof. apply foldl_app. Qed.

(** ** The throttle *)

Lemma store_throttled (f : bool) (now : Z) (rt : Runtime) :
  throttled rt -> throttled (snd (store f now rt)).
Proof.
  unfold throttled. intros [H1 H2].
  destruct (store_static f now rt) as (_ & -> & _).
  destruct (store_cases f now rt) as [(-> & -> & _)|(-> & _ & _ & Hf)].
  - split; assumption.
  - destruct (start_write_spec f now rt) as (_ & -> & -> & _).
    split; simpl; [intros t [= <-]; reflexivity|].
    split; [|exact H2]. intros -> t0 Ht0.
    destruct (Hf eq_refl) as [_ Hle]. rewrite (H1 t0 Ht0) in Hle. exact Hle.
Qed.

Lemma after_write_throttled (now : Z) (rt : Runtime) :
  throttled rt -> throttled (after_write now rt).
Proof.
  intros H. unfold after_write, setTimeout.
  repeat case_match; try exact H. apply store_throttled, H.
Qed.

Lemma resume_throttled (now : Z) (ok : bool) (rt : Runtime) :
  throttled rt -> throttled (resume now ok rt).
Proof.
  intros H. unfold resume. destruct (inflight rt) as [|w rest]; [exact H|].
  match goal with |- throttled (add_log ?e ?r) =>
    assert (Hr : throttled r); [|exact Hr] end.
  apply after_write_throttled. destruct (w_batch w); exact H.
Qed.

Lemma step_throttled (rt : Runtime) (e : event) :
  throttled rt -> throttled (step rt e).
Proof.
  intros H. destruct e as [now data|now|t now|now ok]; simpl.
  - apply store_throttled. exact H.
  - apply store_throttled. exact H.
  - unfold fire. case_match; [|exact H]. apply store_throttled. exact H.
  - apply resume_throttled. exact H.
Qed.

Lemma run_throttled (es : list event) :
  forall rt : Runtime, throttled rt -> throttled (run rt es).
Proof.
  induction es as [|e es IH]; intros rt H; [exact H|].
  simpl. apply IH, step_throttled, H.
Qed.

Lemma boot_throttled (d : JsonDb) : throttled (boot d).
Proof. split; simpl; [discriminate|exact I]. Qed.

Lemma latest_start_last (l : list effect) (w : Z * bool * value) :
  last (writes_of l) = Some w -> latest_start l = Some (start_time w).
Proof.
  induction l as [|e l IH]; simpl; [discriminate|].
  destruct e; auto. rewrite last_snoc. intros [= <-]. reflexivity.
Qed.

Lemma start_spaced_adjacent (th : Z) (l : list effect) :
  start_spaced th l ->
  forall (i : nat) (w1 w2 : Z * bool * value),
    writes_of l !! i = Some w1 -> writes_of l !! S i = Some w2 ->
    urgent w2 = false -> start_time w1 + th <= start_time w2.
Proof.
  induction l as [|e l IH]; simpl; intros H i w1 w2 Hi Hj Hu;
    [discriminate|].
  destruct e as [t u c| |]; try (eapply IH; eauto; fail).
  destruct H as [Hs H].
  destruct (decide (S i < length (writes_of l))%nat) as [Hlt|Hge].
  - rewrite lookup_app_l in Hi by lia. rewrite lookup_app_l in Hj by lia.
    eapply IH; eauto.
  - apply lookup_lt_Some in Hj as Hb. rewrite length_app in Hb.
    simpl in Hb. assert (Hn : S i = length (writes_of l)) by lia.
    rewrite lookup_app_l in Hi by lia.
    rewrite lookup_app_r in Hj by lia.
    replace (S i - length (writes_of l))%nat with 0%nat in Hj by lia.
    simpl in Hj. injection Hj as <-. unfold urgent in Hu. simpl in Hu.
    apply (Hs Hu). apply latest_start_last.
    rewrite last_lookup. rewrite <- Hn. simpl. exact Hi.
Qed.

(** ** Events that are not calls start at most the pending batch *)

Lemma fire_potential (t : nat) (now : Z) (rt : Runtime) :
  consistent rt -> potential (fire t now rt) = potential rt.
Proof.
  intros [H1 H2 H3 H4 H5]. unfold fire.
  destruct (existsb (timer_is t) (timers rt)) eqn:He; [|reflexivity].
  destruct (timers rt) as [|e [|e' l]]; simpl in *; [discriminate| |tauto].
  destruct (scheduled (db rt)) as [s|] eqn:Hs; [|discriminate].
  unfold store, potential. simpl. rewrite Hs.
  destruct (writing (db rt)); simpl; rewrite ?Hs; reflexivity.
Qed.

(** With no write in flight an urgent request starts its write at once,
    whatever is scheduled. *)
Lemma store_urgent_idle (now : Z) (rt : Runtime) :
  writing (db rt) = false -> store true now rt = start_write true now rt.
Proof.
  intros Hw. unfold store. rewrite Hw.
  destruct (scheduled (db rt)); reflexivity.
Qed.

Lemma after_write_potential (now : Z) (rt : Runtime) :
  writing (db rt) = false ->
  potential (after_write now rt) = potential rt.
Proof.
  intros Hw. unfold after_write.
  destruct (scheduled (db rt)) as [ns|] eqn:Hs; [|reflexivity].
  destruct (doItNow ns).
  - rewrite (store_urgent_idle now rt Hw).
    destruct (start_write_spec true now rt) as (_ & Hl & _ & _ & Hn & _).
    unfold potential, writes. rewrite Hl, Hn, Hs, writes_of_start, length_app.
    simpl. lia.
  - destruct (timer ns); unfold potential; simpl; rewrite ?Hs; reflexivity.
Qed.

Lemma resume_potential (now : Z) (ok : bool) (rt : Runtime) :
  potential (resume now ok rt) = potential rt.
Proof.
  unfold resume. destruct (inflight rt) as [|w rest]; [reflexivity|].
  match goal with |- potential (add_log ?e (after_write now ?r)) = _ =>
    transitivity (potential (after_write now r)); [reflexivity|];
    rewrite (after_write_potential now r) by reflexivity end.
  destruct (w_batch w); reflexivity.
Qed.

Lemma quiet_run_potential (es : list event) :
  forall rt : Runtime,
    consistent rt -> forallb (fun e => negb (is_call e)) es = true ->
    potential (run rt es) = potential rt.
Proof.
  induction es as [|e es IH]; intros rt HC Hq; [reflexivity|].
  simpl in Hq. apply andb_true_iff in Hq as [He Hq]. simpl.
  rewrite IH by (auto using step_consistent).
  destruct e; try discriminate; simpl.
  - apply fire_potential, HC.
  - apply resume_potential.
Qed.

Lemma fresh_store_constructed (t0 : Z) :
  construct "p" scenario_options t0 no_file = ReadyResolved (fresh_store t0).
Proof. reflexivity. Qed.

(** * The claims *)

(** C1.  At-most-one-write invariant.  For a store built by the constructor
    and any sequence of events [es0]: the batches made and not yet taken up
    by a write are exactly the one in [scheduled], so at most one; at most
    one [writeFile] is in progress, and [writing] says whether one is; at
    most one timer is armed.  And when a write is in flight (after [es]),
    any number of [update]/[flush] calls start no write, all get the promise
    of the one pending batch, and whatever follows that is not a new call
    (completions of writes, timers firing) starts at most one more
    write. *)
Theorem at_most_one_write
    (p : string) (o : JsonDbOptions) (t0 : Z) (fs : FileSystem) (d : JsonDb)
    (es0 es calls rest : list event) :
  construct p o t0 fs = ReadyResolved d ->
  writing (db (run (boot d) es)) = true ->
  forallb is_call calls = true ->
  forallb (fun e => negb (is_call e)) rest = true ->
  let rt0 := run (boot d) es0 in
  let rt := run (boot d) es in
  (tickets rt0 = ticket_of (scheduled (db rt0)) /\
   (length (tickets rt0) <= 1)%nat /\
   (length (inflight rt0) <= 1)%nat /\
   writing (db rt0) = busy (inflight rt0) /\
   (length (timers rt0) <= 1)%nat) /\
  writes (run rt calls) = writes rt /\
  (forall r, In r (results rt calls) ->
     exists s, scheduled (db (run rt calls)) = Some s /\
               r = Adopts (promise s)) /\
  (length (writes (run rt (calls ++ rest))) <= S (length (writes rt)))%nat.
Proof.
  intros Hc Hw Hcalls Hrest. cbv zeta.
  apply construct_idle in Hc as (Hdw & Hds & _).
  pose proof (boot_consistent d Hdw Hds) as HB.
  split.
  - destruct (run_consistent es0 _ HB) as [H1 H2 H3 H4 H5].
    repeat split; auto.
    all: try (rewrite H3; destruct (scheduled (db (run (boot d) es0)));
              simpl; lia).
    all: destruct (timers (run (boot d) es0)) as [|e [|e' l]]; simpl in *;
      try lia; tauto.
  - pose proof (run_consistent es _ HB) as HC.
    destruct (calls_while_writing calls _ Hcalls Hw)
      as (G1 & G2 & G3 & G4 & G5).
    split; [unfold writes; rewrite G1; reflexivity|]. split; [exact G5|].
    rewrite run_app.
    pose proof (quiet_run_potential rest _
                  (run_consistent calls _ HC) Hrest) as HP.
    unfold potential in HP. unfold writes in *. rewrite G1 in HP.
    destruct (scheduled (db (run (run (boot d) es) calls))); simpl in HP; lia.
Qed.

(** The invariant at work: a write in flight, an update and a flush queued
    behind it, then the two completions and a stray timer. *)
Lemma at_most_one_write_witness :
  writing (db first_write_run) = true /\
  (length (writes (run first_write_run
                     ([CallUpdate 1001 doc_a2b3; CallFlush 1002]
                      ++ [WriteCompletes 1010 true; TimerFires 5 1011;
                          WriteCompletes 1020 true])))
   <= S (length (writes first_write_run)))%nat.
Proof.
  split; [reflexivity|].
  apply (at_most_one_write "p" scenario_options 1000 no_file
           (fresh_store 1000) [CallFlush 1000]
           [CallUpdate 1000 doc_a1]
           [CallUpdate 1001 doc_a2b3; CallFlush 1002]
           [WriteCompletes 1010 true; TimerFires 5 1011;
            WriteCompletes 1020 true]); reflexivity.
Defined.

(** With no write in flight and nothing scheduled, a request that is not
    urgent starts its write at once when the throttle has elapsed since
    [lastSync], and arms a timer otherwise. *)
Lemma store_idle_elapsed (now : Z) (rt : Runtime) :
  writing (db rt) = false -> scheduled (db rt) = None ->
  lastSync (meta (db rt)) + syncThrottle (options (db rt)) <= now ->
  store false now rt = start_write false now rt.
Proof.
  intros Hw Hs Hle. unfold store. rewrite Hw, Hs. cbv zeta.
  replace (0 <? waitTime false now (db rt)) with false; [reflexivity|].
  symmetry. apply Z.ltb_ge. unfold waitTime. lia.
Qed.

Lemma store_idle_throttled (now : Z) (rt : Runtime) :
  writing (db rt) = false -> scheduled (db rt) = None ->
  now < lastSync (meta (db rt)) + syncThrottle (options (db rt)) ->
  store false now rt =
    (Adopts (fresh rt),
     {| db := set_scheduled
                (Some {| timer := Some (S (fresh rt)); doItNow := false;
                         promise := fresh rt |}) (db rt);
        inflight := inflight rt;
        timers := (S (fresh rt),
                   lastSync (meta (db rt)) + syncThrottle (options (db rt))
                   - now) :: timers rt;
        tickets := fresh rt :: tickets rt;
        fresh := S (S (fresh rt));
        log := log rt |}).
Proof.
  intros Hw Hs Hlt. unfold store. rewrite Hw, Hs. cbv zeta.
  replace (0 <? waitTime false now (db rt)) with true; [reflexivity|].
  symmetry. apply Z.ltb_lt. unfold waitTime. lia.
Qed.

(** The first [update] on a fresh store writes at once. *)
Lemma first_update_writes (t0 t1 : Z) :
  100 <= t1 ->
  step (boot (fresh_store t0)) (CallUpdate t1 doc_a1) =
    let m := {| createTime := t0; lastUpdate := t1; lastSync := t1 |} in
    let c := {| stored_meta := m; stored_data := doc_a1 |} in
    {| db := {| meta := m; options := scenario_options; path := "p";
                payload := doc_a1; writing := true; scheduled := None |};
       inflight := [ {| w_batch := None; w_call := 0%nat; w_content := c |} ];
       timers := []; tickets := []; fresh := 1%nat;
       log := [WriteStarted t1 false c] |}.
Proof.
  intros H. cbn [step]. unfold update.
  rewrite store_idle_elapsed by (try reflexivity; simpl; lia). reflexivity.
Qed.

(** C2, as stated, fails: the first [update] finds [lastSync = 0], so the
    throttle elapsed long ago and it writes [{a:1}] at once; the second
    [update] and the [flush] are coalesced into a second write. *)
Lemma coalescing_scenario_not_one_write :
  ~ (exists w,
       writes (run (boot (fresh_store 1000))
                 (scenario 1000 1000 1000
                  ++ [WriteCompletes 1010 true; WriteCompletes 1020 true]))
       = [w] /\ document w = doc_a2b3).
Proof. intros (w & H & _). vm_compute in H. discriminate. Qed.

(** C2, amended.  On a fresh store with [syncThrottle = 100] and an empty
    document, at any time of the clock from 100 ms after the epoch on:
    the first [update] starts a write of [{a:1}] by itself; after the
    second [update] and the [flush] that is still the only write, and the
    promise of [flush] is pending; when the first write completes a second
    one starts, urgent, with [{a:2,b:3}], and the promise is still pending;
    when the second completes exactly these two writes have happened and
    the promise of [flush] is settled, by the outcome of the second. *)
Theorem coalescing_scenario
    (t0 t1 t2 t3 c1 c2 : Z) (ok1 ok2 : bool) :
  100 <= t1 ->
  let r := fst (flush t3 (before_flush t0 t1 t2)) in
  let rt3 := snd (flush t3 (before_flush t0 t1 t2)) in
  let rt4 := resume c1 ok1 rt3 in
  let rt5 := resume c2 ok2 rt4 in
  writes rt3 = [(t1, false, doc_a1)] /\
  observed r rt3 = None /\
  writes rt4 = [(t1, false, doc_a1); (c1, true, doc_a2b3)] /\
  observed r rt4 = None /\
  writes rt5 = [(t1, false, doc_a1); (c1, true, doc_a2b3)] /\
  observed r rt5 = Some ok2.
Proof.
  intros H. cbv zeta. unfold before_flush, run. cbn [foldl].
  rewrite (first_update_writes t0 t1 H). vm_compute. repeat split.
Qed.

(** The amended scenario at one second after the epoch. *)
Lemma coalescing_scenario_witness :
  100 <= 1000 /\
  writes (resume 1020 true
            (resume 1010 true (snd (flush 1000 (before_flush 1000 1000 1000)))))
  = [(1000, false, doc_a1); (1010, true, doc_a2b3)].
Proof.
  split; [lia|].
  apply (coalescing_scenario 1000 1000 1000 1000 1010 1020 true true). lia.
Defined.

(** C3, as stated, fails: the first write starts at 1000 and completes at
    1080, the second, not urgent either, starts at 1100, only 20 ms after
    that completion, with a throttle of 100 ms.  The wait of line 277 is
    counted from [lastSync], which [sync] sets when a write starts (line
    354). *)
Lemma throttle_not_from_completion :
  ~ (forall g, In g (completion_gaps None (rev (log slow_write_run))) ->
               fst g + syncThrottle (options (db slow_write_run)) <= snd g).
Proof.
  intros H. specialize (H (1080, 1100)).
  assert (Hin : In (1080, 1100)
                  (completion_gaps None (rev (log slow_write_run))))
    by (vm_compute; left; reflexivity).
  apply H in Hin. vm_compute in Hin. apply Hin. reflexivity.
Qed.

(** C3, amended.  The throttle is a lower bound on the spacing between the
    starts of writes: for a store built by the constructor and any sequence
    of events, a write that is not urgent never starts less than
    [syncThrottle] after the start of the write before it. *)
Theorem throttle_start_to_start
    (p : string) (o : JsonDbOptions) (t0 : Z) (fs : FileSystem) (d : JsonDb)
    (es : list event) (i : nat) (w1 w2 : Z * bool * value) :
  construct p o t0 fs = ReadyResolved d ->
  writes (run (boot d) es) !! i = Some w1 ->
  writes (run (boot d) es) !! S i = Some w2 ->
  urgent w2 = false ->
  start_time w1 + syncThrottle o <= start_time w2.
Proof.
  intros Hc H1 H2 Hu. apply construct_idle in Hc as (_ & _ & Ho).
  destruct (run_throttled es _ (boot_throttled d)) as [_ Hs].
  destruct (run_static es (boot d)) as (Hopt & _). rewrite Hopt in Hs.
  simpl in Hs. rewrite Ho in Hs.
  exact (start_spaced_adjacent _ _ Hs i w1 w2 H1 H2 Hu).
Qed.

(** The two writes of [slow_write_run] start 100 ms apart. *)
Lemma throttle_start_to_start_witness :
  writes slow_write_run !! 1%nat = Some (1100, false, doc_a2b3) /\
  1000 + 100 <= 1100.
Proof.
  split; [reflexivity|].
  apply (throttle_start_to_start "p" scenario_options 1000 no_file
           (fresh_store 1000)
           [CallUpdate 1000 doc_a1; WriteCompletes 1080 true;
            CallUpdate 1100 doc_a2b3]
           0%nat (1000, false, doc_a1) (1100, false, doc_a2b3));
    reflexivity.
Defined.

(** C4.  What the code does where the claim fails: [flush] on a store with
    nothing scheduled runs the write itself; when [writeFile] fails, the
    [catch] of line 301 finds no batch to reject and has no [throw], so the
    promise that [flush] handed back is fulfilled although the write
    failed. *)
Theorem flush_failure_swallowed :
  let call := flush 1000 (boot (fresh_store 1000)) in
  let rt := resume 1010 false (snd call) in
  fst call = Own 0%nat /\
  log rt =
    [Settled 0%nat true; WriteEnded 1010 false;
     WriteStarted 1000 true
       {| stored_meta := {| createTime := 1000; lastUpdate := 0;
                            lastSync := 1000 |};
          stored_data := VObj ∅ |}] /\
  observed (fst call) rt = Some true.
Proof. cbv zeta. repeat split. Qed.

(** ** An urgent request, in each state of the scheduler *)

Lemma urgent_when_idle (now : Z) (rt : Runtime) :
  consistent rt -> writing (db rt) = false ->
  let rt' := snd (flush now rt) in
  fst (flush now rt) = Own (fresh rt) /\
  writes rt' = writes rt ++ [(now, true, serialized (db rt))] /\
  writing (db rt') = true /\ scheduled (db rt') = None /\
  timers rt' = [] /\ tickets rt' = [] /\
  inflight rt' =
    [ {| w_batch := scheduled (db rt); w_call := fresh rt;
         w_content :=
           {| stored_meta := {| createTime := createTime (meta (db rt));
                                lastUpdate := lastUpdate (meta (db rt));
                                lastSync := now |};
              stored_data := serialized (db rt) |} |} ].
Proof.
  intros HC Hw. cbv zeta. unfold flush. rewrite (store_urgent_idle now rt Hw).
  destruct (start_write_spec true now rt) as (E1 & E2 & _ & E4 & E5 & _).
  unfold writes. rewrite E1, E2, E4, E5.
  repeat (split; [reflexivity|]).
  destruct HC as [H1 H2 H3 H4 H5]. rewrite Hw in H2. symmetry in H2.
  apply busy_false in H2.
  destruct (clearTimeout_keeps (scheduled (db rt) ≫= timer) rt)
    as (K1 & K2 & K3 & K4 & K5).
  unfold start_write. simpl. rewrite K1, K3, K4, K5, H2, H3.
  split; [apply timers_of_clear, H4|]. split; [|reflexivity].
  destruct (scheduled (db rt)); simpl; [|reflexivity].
  rewrite Nat.eqb_refl. reflexivity.
Qed.

Lemma urgent_when_writing (now later : Z) (rt : Runtime) (s : ScheduledSync) :
  writing (db rt) = true -> scheduled (db rt) = Some s ->
  let rt' := snd (flush now rt) in
  fst (flush now rt) = Adopts (promise s) /\
  scheduled (db rt') = Some (with_doItNow true s) /\
  tickets rt' = tickets rt /\ writes rt' = writes rt /\
  inflight rt' = inflight rt /\
  scheduled (db (snd (store false later rt'))) = Some (with_doItNow true s).
Proof.
  intros Hw Hs. cbv zeta. unfold flush, store. rewrite Hw, Hs. simpl.
  rewrite Hw, orb_true_r. simpl. auto 10.
Qed.

Lemma settled_by_write (now c : Z) (ok : bool) (rt : Runtime)
    (s : ScheduledSync) :
  consistent rt -> writing (db rt) = false -> scheduled (db rt) = Some s ->
  outcome (promise s) (log (resume c ok (snd (flush now rt)))) = Some ok.
Proof.
  intros HC Hw Hs.
  destruct (urgent_when_idle now rt HC Hw) as (_ & _ & _ & E4 & _ & _ & E7).
  unfold resume. rewrite E7, Hs. simpl.
  unfold after_write. simpl. rewrite E4. simpl.
  destruct HC as [_ _ _ _ H5]. specialize (H5 s Hs).
  replace (fresh rt =? promise s)%nat with false
    by (symmetry; apply Nat.eqb_neq; lia).
  rewrite Nat.eqb_refl. reflexivity.
Qed.

(** C7, as stated, fails in the state where a batch that is not urgent
    waits on its timer: [flush] is not handed the promise of that batch and
    the batch does not stay scheduled with its urgency raised; the call
    takes the batch up and writes at once (line 270 onwards), and what it
    hands back is its own promise. *)
Lemma urgent_not_merged_when_armed :
  ~ (exists s, scheduled (db armed_run) = Some s /\ doItNow s = false /\
               fst (flush 1030 armed_run) = Adopts (promise s) /\
               scheduled (db (snd (flush 1030 armed_run)))
               = Some (with_doItNow true s)).
Proof. intros (s & _ & _ & H & _). vm_compute in H. discriminate. Qed.

(** C7, amended.  For a store built by the constructor, in any state it
    can reach:
    - with no write in flight and nothing scheduled, an urgent request
      starts its write in the same step, whatever the throttle says: no
      timer is armed and no batch is made;
    - with a write in flight and a batch pending ([s2]), it raises the
      urgency of that batch, which later requests that are not urgent do
      not lower again, it is handed the promise of the batch, and no other
      batch is made;
    - with no write in flight and a batch waiting on its timer ([s3]), it
      takes that batch up: the timer is cleared, the write starts in the
      same step, no batch stays or is made, and the promise of the batch is
      settled by the outcome of that write. *)
Theorem urgent_bypass_and_promotion
    (p : string) (o : JsonDbOptions) (t0 : Z) (fs : FileSystem) (d : JsonDb)
    (es1 es2 es3 : list event) (s2 s3 : ScheduledSync)
    (now later c : Z) (ok : bool) :
  construct p o t0 fs = ReadyResolved d ->
  writing (db (run (boot d) es1)) = false ->
  scheduled (db (run (boot d) es1)) = None ->
  writing (db (run (boot d) es2)) = true ->
  scheduled (db (run (boot d) es2)) = Some s2 ->
  writing (db (run (boot d) es3)) = false ->
  scheduled (db (run (boot d) es3)) = Some s3 ->
  let idle := run (boot d) es1 in
  let queued := run (boot d) es2 in
  let armed := run (boot d) es3 in
  (fst (flush now idle) = Own (fresh idle) /\
   writes (snd (flush now idle))
   = writes idle ++ [(now, true, serialized (db idle))] /\
   timers (snd (flush now idle)) = [] /\
   tickets (snd (flush now idle)) = []) /\
  (fst (flush now queued) = Adopts (promise s2) /\
   scheduled (db (snd (flush now queued))) = Some (with_doItNow true s2) /\
   scheduled (db (snd (store false later (snd (flush now queued)))))
   = Some (with_doItNow true s2) /\
   tickets (snd (flush now queued)) = [promise s2] /\
   writes (snd (flush now queued)) = writes queued) /\
  (fst (flush now armed) = Own (fresh armed) /\
   writes (snd (flush now armed))
   = writes armed ++ [(now, true, serialized (db armed))] /\
   scheduled (db (snd (flush now armed))) = None /\
   timers (snd (flush now armed)) = [] /\
   tickets (snd (flush now armed)) = [] /\
   outcome (promise s3) (log (resume c ok (snd (flush now armed))))
   = Some ok).
Proof.
  intros Hc Hw1 Hs1 Hw2 Hs2 Hw3 Hs3. cbv zeta.
  apply construct_idle in Hc as (Hdw & Hds & _).
  pose proof (boot_consistent d Hdw Hds) as HB.
  pose proof (run_consistent es1 _ HB) as HC1.
  pose proof (run_consistent es2 _ HB) as HC2.
  pose proof (run_consistent es3 _ HB) as HC3.
  split; [|split].
  - destruct (urgent_when_idle now _ HC1 Hw1)
      as (E1 & E2 & _ & _ & E5 & E6 & _). auto.
  - destruct (urgent_when_writing now later _ s2 Hw2 Hs2)
      as (E1 & E2 & E3 & E4 & _ & E6).
    repeat (split; [assumption|]). split; [|assumption].
    rewrite E3. destruct HC2 as [_ _ H3 _ _]. rewrite H3, Hs2. reflexivity.
  - destruct (urgent_when_idle now _ HC3 Hw3)
      as (E1 & E2 & _ & E4 & E5 & E6 & _).
    repeat (split; [assumption|]).
    apply settled_by_write; assumption.
Qed.

(** The three states on the fresh store of the scenarios; [armed_run] is
    the third. *)
Lemma urgent_bypass_and_promotion_witness :
  scheduled (db armed_run)
  = Some {| timer := Some 2%nat; doItNow := false; promise := 1%nat |} /\
  fst (flush 1030 armed_run) = Own 3%nat /\
  outcome 1%nat (log (resume 1040 false (snd (flush 1030 armed_run))))
  = Some false.
Proof.
  split; [reflexivity|].
  pose proof (urgent_bypass_and_promotion "p" scenario_options 1000 no_file
                (fresh_store 1000) []
                [CallUpdate 1000 doc_a1; CallUpdate 1001 doc_a2b3]
                [CallUpdate 1000 doc_a1; WriteCompletes 1010 true;
                 CallUpdate 1020 doc_a2b3]
                {| timer := None; doItNow := false; promise := 1%nat |}
                {| timer := Some 2%nat; doItNow := false; promise := 1%nat |}
                1030 1031 1040 false
                eq_refl eq_refl eq_refl eq_refl eq_refl eq_refl eq_refl)
    as (_ & _ & H1 & _ & _ & _ & _ & H6).
  split; [exact H1|exact H6].
Defined.



(** ** [update] and the document *)

Lemma update_payload (now : Z) (data : value) (rt : Runtime) :
  getData (db (snd (update now data rt)))
  = assignDeepWithDelete (payload (db rt)) data.
Proof.
  unfold update, getData.
  match goal with |- context [store false now ?r] =>
    destruct (store_static false now r) as (-> & _) end.
  reflexivity.
Qed.



(** What the merge does with a field of the update that is not a mapping,
    at any depth of nested mappings of the update: the sentinel removes
    the field, any other value is stored as it is. *)
Lemma assign_obj_leaf (ks : list string) :
  forall (dm um : gmap string value) (u : value),
    lookup_path ks (VObj um) = Some u ->
    is_object u = false ->
    lookup_path ks (VObj (assign_obj dm um))
    = match u with
      | VNull => None
      | _ => Some u
      end.
Proof.
  induction ks as [|k ks IH]; intros dm um u H Hu.
  - simpl in H. injection H as <-. discriminate.
  - simpl in H |- *. rewrite assign_obj_lookup.
    destruct (um !! k) as [v|] eqn:Hv; [|discriminate].
    cbn [mbind option_bind] in H.
    destruct ks as [|k' ks'].
    + simpl in H. injection H as ->.
      destruct u; try discriminate; reflexivity.
    + assert (Hne : k' :: ks' <> []) by congruence.
      destruct v;
        try (rewrite lookup_path_not_object in H
               by (reflexivity || exact Hne); discriminate).
      destruct (dm !! k) as [[]|]; cbn [mbind option_bind];
        apply IH; assumption.
Qed.

(** Where a [null] found in the merged document comes from: it was in the
    document before, at the same place, or it lies inside a sequence of
    the update, which the merge stores as it is. *)
Lemma assign_obj_null_origin (q : list place) :
  forall dm um : gmap string value,
    lookup_at q (VObj (assign_obj dm um)) = Some VNull ->
    lookup_at q (VObj dm) = Some VNull \/
    exists (ks : list string) (l : list value) (q' : list place),
      q = (Key <$> ks) ++ q' /\
      lookup_path ks (VObj um) = Some (VArr l) /\
      lookup_at q' (VArr l) = Some VNull.
Proof.
  induction q as [|[k|i] q IH]; intros dm um H; try discriminate.
  simpl in H |- *. rewrite assign_obj_lookup in H.
  destruct (um !! k) as [u|] eqn:Hu; [|left; exact H].
  assert (Hscalar : forall v : value,
             is_object v = false -> (forall l, v <> VArr l) -> v <> VNull ->
             lookup_at q v <> Some VNull).
  { intros v Hv1 Hv2 Hv3. destruct q as [|[k'|i'] q'']; simpl.
    - congruence.
    - destruct v; discriminate.
    - destruct v; try discriminate. exfalso. eapply Hv2. reflexivity. }
  destruct u as [| |b|n|t|l|um'].
  - exfalso. apply (Hscalar VUndefined); [reflexivity|discriminate..|exact H].
  - discriminate.
  - exfalso. apply (Hscalar (VBool b)); [reflexivity|discriminate..|exact H].
  - exfalso. apply (Hscalar (VNum n)); [reflexivity|discriminate..|exact H].
  - exfalso. apply (Hscalar (VStr t)); [reflexivity|discriminate..|exact H].
  - right. exists [k], l, q. split; [reflexivity|]. split; [|exact H].
    simpl. rewrite Hu. reflexivity.
  - assert (Hnew : lookup_at q (VObj (assign_obj ∅ um')) = Some VNull ->
             exists (ks : list string) (l : list value) (q' : list place),
               Key k :: q = (Key <$> ks) ++ q' /\
               lookup_path ks (VObj um) = Some (VArr l) /\
               lookup_at q' (VArr l) = Some VNull).
    { intros G. apply IH in G as [G|(ks & l & q' & -> & G1 & G2)].
      - destruct q as [|[k'|i'] q'']; simpl in G; discriminate.
      - exists (k :: ks), l, q'. split; [reflexivity|]. split; [|exact G2].
        simpl. rewrite Hu. exact G1. }
    destruct (dm !! k) as [d|] eqn:Hd; cbn [mbind option_bind] in H |- *;
      [|right; apply Hnew; exact H].
    destruct d as [| |b|n|t|l|dm']; try (right; apply Hnew; exact H).
    apply IH in H as [H|(ks & l & q' & -> & G1 & G2)]; [left; exact H|].
    right. exists (k :: ks), l, q'. split; [reflexivity|]. split; [|exact G2].
    simpl. rewrite Hu. exact G1.
Qed.

(** C9, as stated, fails: an update can put a [null] into a field of the
    document.  The update [{a: [{b: null}]}] holds a sequence, which
    replaces the field [a] wholesale: afterwards the field [b] of the
    mapping inside the sequence holds [null], and it did not before. *)
Lemma null_set_inside_sequence :
  ~ (forall (rt : Runtime) (now : Z) (data : value) (q : list place),
       lookup_at q (getData (db (snd (update now data rt)))) = Some VNull ->
       lookup_at q (getData (db rt)) = Some VNull).
Proof.
  intros H.
  specialize (H (boot (fresh_store 1000)) 1000
                (VObj {[ "a" := VArr [VObj {[ "b" := VNull ]}] ]})
                [Key "a"; Index 0%nat; Key "b"] eq_refl).
  vm_compute in H. discriminate.
Qed.

(** C9, amended.  The delete sentinel is [null].  A field that the update
    sets to [null], at any depth of nested mappings of the update, is
    absent from the document afterwards; and no update puts a [null] into
    a field that is reached through nested mappings alone.  A sequence of
    the update is stored as it is, with the [null]s it holds: a [null]
    found in the document after an update, at any place, was there before
    or lies inside a sequence of the update. *)
Theorem null_is_delete_sentinel
    (rt : Runtime) (now : Z) (D U : gmap string value) :
  payload (db rt) = VObj D ->
  deleteValue = VNull /\
  (forall ks : list string,
     lookup_path ks (VObj U) = Some VNull ->
     lookup_path ks (getData (db (snd (update now (VObj U) rt)))) = None) /\
  (forall (data : value) (ks : list string),
     ks <> [] ->
     lookup_path ks (getData (db (snd (update now data rt)))) = Some VNull ->
     lookup_path ks (payload (db rt)) = Some VNull) /\
  (forall (ks : list string) (l : list value),
     lookup_path ks (VObj U) = Some (VArr l) ->
     lookup_path ks (getData (db (snd (update now (VObj U) rt))))
     = Some (VArr l)) /\
  (forall (data : value) (q : list place),
     lookup_at q (getData (db (snd (update now data rt)))) = Some VNull ->
     lookup_at q (payload (db rt)) = Some VNull \/
     exists (ks : list string) (l : list value) (q' : list place),
       q = (Key <$> ks) ++ q' /\
       lookup_path ks data = Some (VArr l) /\
       lookup_at q' (VArr l) = Some VNull).
Proof.
  intros HD. split; [reflexivity|]. split; [|split; [|split]].
  - intros ks H. rewrite update_payload, HD. simpl.
    rewrite (assign_obj_leaf ks D U VNull H); reflexivity.
  - intros data ks Hks. rewrite update_payload, HD.
    destruct data; simpl; auto. apply assign_obj_no_new_null, Hks.
  - intros ks l H. rewrite update_payload, HD. simpl.
    rewrite (assign_obj_leaf ks D U (VArr l) H); reflexivity.
  - intros data q. rewrite update_payload, HD.
    destruct data; simpl; auto. apply assign_obj_null_origin.
Qed.

(** A field deleted inside a nested mapping of [doc_nested]. *)
Lemma null_is_delete_sentinel_witness :
  lookup_path ["sub"; "y"] (VObj upd_deep) = Some VNull /\
  lookup_path ["sub"; "y"]
    (getData (db (snd (update 1000 (VObj upd_deep) nested_store))))
  = None.
Proof.
  split; [reflexivity|].
  exact (proj1 (proj2
           (null_is_delete_sentinel nested_store 1000 doc_nested upd_deep
              eq_refl))
           ["sub"; "y"] eq_refl).
Defined.

(** ** Loading *)

(** C6.  Corrupt-load downgrade.  When the file exists but cannot be read,
    does not parse, or fails the validation of [isValidData] (also by
    raising inside it), [read] returns [undefined] and raises nothing,
    [isReady] resolves, and [getData] is [initialData] (the empty document
    when the options hold none); unless [throwIfNotExists] is set, the
    store is the very store the constructor builds when there is no
    file. *)
Theorem corrupt_load_downgrade
    (p : string) (o : JsonDbOptions) (now : Z) (fs : FileSystem) :
  unusable (file_at_path fs) = true ->
  fst (read o fs) = Normal None /\
  exists d, construct p o now fs = ReadyResolved d /\
            getData d = default (VObj ∅) (initialData o) /\
            (throwIfNotExists o = false ->
             construct p o now (without_file fs) = ReadyResolved d).
Proof.
  intros Hu.
  assert (Hr : fst (read o fs) = Normal None).
  { unfold read, existsSync_path.
    destruct fs as [c|[| | |raw]]; try discriminate;
      cbn [file_at_path folder_exists]; rewrite andb_false_r;
      try reflexivity.
    simpl in Hu. destruct (isValidData raw) as [|[]]; try discriminate;
      reflexivity. }
  split; [exact Hr|]. unfold construct. rewrite Hr.
  eexists. split; [reflexivity|]. split.
  - unfold getData. simpl. destruct (initialData o); reflexivity.
  - intros Ht. destruct fs as [c|f]; [discriminate|].
    unfold read, existsSync_path. simpl. rewrite Ht. reflexivity.
Qed.

(** The file holds [{"notMeta":true}]: [meta] is undefined and
    [meta.createTime] raises inside the [try]. *)
Lemma corrupt_load_downgrade_witness :
  isValidData (VObj {[ "notMeta" := VBool true ]}) = Thrown /\
  fst (read scenario_options foreign_file) = Normal None.
Proof.
  split; [reflexivity|].
  exact (proj1 (corrupt_load_downgrade "p" scenario_options 1000
                  foreign_file eq_refl)).
Defined.




(** * Further properties of the store *)

(** ** Promises are settled once *)

Lemma outcome_None (p : nat) (l : list effect) :
  outcome p l = None <-> p ∉ settled_ids l.
Proof.
  induction l as [|e l IH]; simpl; [split; [intros _; apply not_elem_of_nil|auto]|].
  destruct e as [| |q ok]; try exact IH. simpl. rewrite not_elem_of_cons.
  destruct (Nat.eqb_spec q p) as [->|Hne].
  - split; [discriminate|]. intros [H _]. congruence.
  - rewrite IH. split; [auto|tauto].
Qed.

Lemma extends_refl (rt : Runtime) : extends rt rt.
Proof.
  split; [lia|]. exists []. split; [reflexivity|].
  split; constructor.
Qed.

Lemma extends_trans (rt1 rt2 rt3 : Runtime) :
  extends rt1 rt2 -> extends rt2 rt3 -> extends rt1 rt3.
Proof.
  intros (L1 & n1 & P1 & D1 & F1) (L2 & n2 & P2 & D2 & F2).
  split; [lia|]. exists (n2 ++ n1). split; [|split].
  - rewrite P2, P1, app_assoc. reflexivity.
  - apply NoDup_app. split; [exact D2|]. split; [|exact D1].
    intros x H2 H1. rewrite Forall_forall in F1, F2.
    specialize (F1 x H1). specialize (F2 x H2). lia.
  - apply Forall_app. split.
    + eapply Forall_impl; [exact F2|]. simpl. intros; lia.
    + eapply Forall_impl; [exact F1|]. simpl. intros; lia.
Qed.

Lemma extends_tidy (rt rt' : Runtime) :
  tidy rt -> extends rt rt' -> tidy rt'.
Proof.
  intros [D F] (L & n & P & Dn & Fn). split.
  - rewrite P. apply NoDup_app. split; [exact Dn|]. split; [|exact D].
    intros x Hn Hx. rewrite Forall_forall in F, Fn.
    specialize (F x Hx). specialize (Fn x Hn). lia.
  - rewrite P. apply Forall_app. split.
    + eapply Forall_impl; [exact Fn|]. simpl. intros; lia.
    + eapply Forall_impl; [exact F|]. simpl. intros; lia.
Qed.

(** One new promise, the next of the counter. *)
Lemma extends_one (rt rt' : Runtime) :
  (fresh rt < fresh rt')%nat -> ids rt' ≡ₚ fresh rt :: ids rt ->
  extends rt rt'.
Proof.
  intros L P. split; [lia|]. exists [fresh rt]. split; [exact P|].
  split; [apply NoDup_singleton|]. constructor; [lia|constructor].
Qed.

Lemma extends_same (rt rt' : Runtime) :
  (fresh rt <= fresh rt')%nat -> ids rt' ≡ₚ ids rt -> extends rt rt'.
Proof.
  intros L P. split; [exact L|]. exists []. split; [exact P|].
  split; constructor.
Qed.

Lemma start_write_extends (f : bool) (now : Z) (rt : Runtime) :
  consistent rt -> writing (db rt) = false ->
  extends rt (snd (start_write f now rt)).
Proof.
  intros [H1 H2 H3 H4 H5] Hw. rewrite Hw in H2. symmetry in H2.
  apply busy_false in H2.
  destruct (clearTimeout_keeps (scheduled (db rt) ≫= timer) rt)
    as (K1 & K2 & K3 & K4 & K5).
  apply extends_one.
  - unfold start_write. simpl. rewrite K4. lia.
  - unfold ids, pending, start_write. simpl.
    rewrite K2, K3, K4, H2. simpl. rewrite app_nil_r. reflexivity.
Qed.

Lemma store_extends (f : bool) (now : Z) (rt : Runtime) :
  consistent rt -> extends rt (snd (store f now rt)).
Proof.
  intros HC. pose proof HC as [H1 H2 H3 H4 H5]. unfold store.
  destruct (writing (db rt)) eqn:Hw.
  - destruct (scheduled (db rt)) as [s|] eqn:Hs; simpl.
    + apply extends_same; [simpl; lia|].
      unfold ids, pending. simpl. rewrite Hs. reflexivity.
    + apply extends_one; [simpl; lia|].
      unfold ids, pending. simpl. rewrite Hs. reflexivity.
  - assert (Hgo : (f = true \/ scheduled (db rt) = None) ->
        extends rt
          (snd (let w := waitTime f now (db rt) in
                if 0 <? w
                then
                  let '(s, rt1) := getSchedule f rt in
                  let '(t, rt2) := setTimeout w rt1 in
                  (Adopts (promise s),
                   put_db (set_scheduled (Some (with_timer t s)) (db rt2)) rt2)
                else start_write f now rt))).
    { intros Hor. cbv zeta.
      destruct (0 <? waitTime f now (db rt)) eqn:Hlt.
      - assert (Hn : scheduled (db rt) = None).
        { destruct Hor as [-> | Hn]; [|exact Hn].
          unfold waitTime in Hlt. simpl in Hlt. discriminate. }
        apply extends_one; [simpl; lia|].
        unfold ids, pending. simpl. rewrite Hn. reflexivity.
      - apply start_write_extends; assumption. }
    destruct (scheduled (db rt)) as [s|] eqn:Hs; destruct f; simpl;
      try apply extends_refl; apply Hgo; auto.
Qed.

Lemma after_write_extends (now : Z) (rt : Runtime) :
  consistent rt -> extends rt (after_write now rt).
Proof.
  intros HC. unfold after_write.
  destruct (scheduled (db rt)) as [ns|] eqn:Hs; [|apply extends_refl].
  destruct (doItNow ns); [apply store_extends; exact HC|].
  destruct (timer ns); [apply extends_refl|].
  apply extends_same; [simpl; lia|].
  unfold ids, pending. simpl. rewrite Hs. reflexivity.
Qed.

(** The state of [resume] between lowering [writing] and line 307. *)
Lemma settled_consistent (now : Z) (ok : bool) (rt : Runtime) (w : WriteOp) :
  consistent rt -> inflight rt = [w] ->
  consistent
    (put_db
       (set_writing false
          (db (settle_batch (w_batch w) ok
                 {| db := db rt; inflight := []; timers := timers rt;
                    tickets := tickets rt; fresh := fresh rt;
                    log := WriteEnded now ok :: log rt |})))
       (settle_batch (w_batch w) ok
          {| db := db rt; inflight := []; timers := timers rt;
             tickets := tickets rt; fresh := fresh rt;
             log := WriteEnded now ok :: log rt |})).
Proof.
  intros [H1 H2 H3 H4 H5] Hi. destruct (w_batch w); split; simpl; auto.
Qed.

Lemma resume_extends (now : Z) (ok : bool) (rt : Runtime) :
  consistent rt -> extends rt (resume now ok rt).
Proof.
  intros HC. unfold resume.
  destruct (inflight rt) as [|w rest] eqn:Hi; [apply extends_refl|].
  assert (rest = []) as ->.
  { destruct HC as [H1 _ _ _ _]. rewrite Hi in H1. simpl in H1.
    destruct rest; [reflexivity|simpl in H1; lia]. }
  cbv zeta.
  pose proof (after_write_extends now _ (settled_consistent now ok rt w HC Hi))
    as (L & n & P & Dn & Fn).
  match type of P with ids (after_write now ?r) ≡ₚ _ =>
    remember r as mid eqn:Hmid end.
  assert (Hf : fresh mid = fresh rt)
    by (subst mid; destruct (w_batch w); reflexivity).
  assert (Hm : w_call w :: ids mid ≡ₚ ids rt).
  { subst mid. unfold ids, pending. rewrite Hi. unfold op_ids.
    destruct w as [[b|] c content]; simpl;
      rewrite <- ?Permutation_middle; simpl; rewrite ?app_nil_r;
      reflexivity. }
  split; [unfold add_log; cbn [fresh]; lia|]. exists n. split; [|split].
  - transitivity (w_call w :: ids (after_write now mid)).
    + unfold ids, pending, add_log. cbn [db inflight log settled_ids].
      rewrite <- Permutation_middle. reflexivity.
    + rewrite P, <- Hm. rewrite <- Permutation_middle. reflexivity.
  - exact Dn.
  - unfold add_log. cbn [fresh]. rewrite Hf in Fn. exact Fn.
Qed.

Lemma step_extends (rt : Runtime) (e : event) :
  consistent rt -> extends rt (step rt e).
Proof.
  intros HC. destruct e as [now data|now|t now|now ok]; simpl.
  - unfold update.
    match goal with |- extends rt (snd (store false now ?r)) =>
      assert (HC' : consistent r)
        by (destruct HC; split; simpl; auto);
      apply (extends_trans rt r); [|apply store_extends; exact HC'] end.
    apply extends_same; [simpl; lia|reflexivity].
  - apply store_extends. exact HC.
  - unfold fire. destruct (existsb (timer_is t) (timers rt)) eqn:He;
      [|apply extends_refl].
    match goal with |- extends rt (snd (store false now ?r)) =>
      assert (HC' : consistent r);
      [|apply (extends_trans rt r);
        [apply extends_same; [simpl; lia|reflexivity]
        |apply store_extends; exact HC']] end.
    pose proof (fire_consistent t now rt HC) as HF. unfold fire in HF.
    rewrite He in HF. destruct HC as [H1 H2 H3 H4 H5].
    split; simpl; auto.
    destruct (timers rt) as [|e [|e' l]]; simpl in *; [exact I| |tauto].
    rewrite orb_false_r in He. rewrite He. exact I.
  - apply resume_extends. exact HC.
Qed.

Lemma run_tidy (es : list event) :
  forall rt : Runtime,
    consistent rt -> tidy rt -> consistent (run rt es) /\ tidy (run rt es).
Proof.
  induction es as [|e es IH]; intros rt HC HT; [auto|].
  simpl. apply IH; [apply step_consistent, HC|].
  eapply extends_tidy; [exact HT|apply step_extends, HC].
Qed.

Lemma boot_tidy (d : JsonDb) : scheduled d = None -> tidy (boot d).
Proof.
  intros Hs. unfold tidy, ids, pending. simpl. rewrite Hs. simpl.
  split; constructor.
Qed.

(** ** Timers *)

Lemma fire_keeps (t : nat) (now : Z) (rt : Runtime) :
  consistent rt ->
  db (fire t now rt) = db rt /\ log (fire t now rt) = log rt /\
  inflight (fire t now rt) = inflight rt /\
  tickets (fire t now rt) = tickets rt /\ fresh (fire t now rt) = fresh rt.
Proof.
  intros [H1 H2 H3 H4 H5]. unfold fire.
  destruct (existsb (timer_is t) (timers rt)) eqn:He; [|auto].
  destruct (timers rt) as [|e [|e' l]]; simpl in *; [discriminate| |tauto].
  destruct (scheduled (db rt)) as [s|] eqn:Hs; [|discriminate].
  unfold store. simpl. rewrite Hs.
  destruct (writing (db rt)) eqn:Hw; simpl; [|auto].
  repeat split. destruct (db rt) as [m o pa py wr sc]. simpl in *. subst.
  destruct s. unfold set_scheduled, with_doItNow. simpl.
  rewrite orb_false_r. reflexivity.
Qed.

(** X1.  A timer that fires changes nothing but the list of armed timers:
    in every state a store built by the constructor can reach, the call of
    [store] it makes starts no write, settles no promise and leaves the
    store, pending batch included, as it was. *)
Theorem timer_fires_nothing
    (p : string) (o : JsonDbOptions) (t0 : Z) (fs : FileSystem) (d : JsonDb)
    (es : list event) (t : nat) (now : Z) :
  construct p o t0 fs = ReadyResolved d ->
  db (fire t now (run (boot d) es)) = db (run (boot d) es) /\
  log (fire t now (run (boot d) es)) = log (run (boot d) es) /\
  inflight (fire t now (run (boot d) es)) = inflight (run (boot d) es).
Proof.
  intros Hc. apply construct_idle in Hc as (Hdw & Hds & _).
  destruct (fire_keeps t now _
              (run_consistent es _ (boot_consistent d Hdw Hds)))
    as (E1 & E2 & E3 & _).
  auto.
Qed.

(** The timer of [armed_run] fires, after the 80 ms it was armed for. *)
Lemma timer_fires_nothing_witness :
  timers armed_run = [(2%nat, 80)] /\
  db (fire 2 1100 armed_run) = db armed_run /\
  writes (fire 2 1100 armed_run) = [(1000, false, doc_a1)].
Proof.
  split; [reflexivity|].
  pose proof (timer_fires_nothing "p" scenario_options 1000 no_file
                (fresh_store 1000)
                [CallUpdate 1000 doc_a1; WriteCompletes 1010 true;
                 CallUpdate 1020 doc_a2b3] 2 1100 eq_refl) as (H1 & H2 & _).
  split; [exact H1|]. unfold writes.
  exact (eq_trans (f_equal writes_of H2) eq_refl).
Defined.

(** With no write in flight, timers and completions change nothing. *)
Lemma quiet_run_idle (es : list event) :
  forall rt : Runtime,
    consistent rt -> writing (db rt) = false ->
    forallb (fun e => negb (is_call e)) es = true ->
    db (run rt es) = db rt /\ log (run rt es) = log rt.
Proof.
  induction es as [|e es IH]; intros rt HC Hw Hq; [auto|].
  simpl in Hq. apply andb_true_iff in Hq as [He Hq].
  assert (Hs : db (step rt e) = db rt /\ log (step rt e) = log rt).
  { destruct e as [| |t now|now ok]; try discriminate; simpl.
    - destruct (fire_keeps t now rt HC) as (E1 & E2 & _). auto.
    - unfold resume. destruct HC as [_ H2 _ _ _]. rewrite Hw in H2.
      symmetry in H2. apply busy_false in H2. rewrite H2. auto. }
  destruct Hs as [E1 E2]. simpl.
  destruct (IH (step rt e)) as [G1 G2];
    [apply step_consistent, HC|rewrite E1; exact Hw|exact Hq|].
  rewrite G1, G2. auto.
Qed.

Lemma reachable (p : string) (o : JsonDbOptions) (t0 : Z) (fs : FileSystem)
    (d : JsonDb) (es : list event) :
  construct p o t0 fs = ReadyResolved d ->
  consistent (run (boot d) es) /\ tidy (run (boot d) es) /\
  options (db (run (boot d) es)) = o.
Proof.
  intros Hc. apply construct_idle in Hc as (Hdw & Hds & Ho).
  destruct (run_tidy es _ (boot_consistent d Hdw Hds) (boot_tidy d Hds))
    as [HC HT].
  destruct (run_static es (boot d)) as (Hopt & _).
  rewrite Hopt. auto.
Qed.

Lemma fresh_unsettled (rt : Runtime) :
  tidy rt -> outcome (fresh rt) (log rt) = None.
Proof.
  intros [_ F]. apply outcome_None. intros Hin.
  rewrite Forall_forall in F. specialize (F (fresh rt)).
  assert (fresh rt < fresh rt)%nat; [|lia].
  apply F. unfold ids. apply elem_of_app. right. exact Hin.
Qed.

Lemma pending_unsettled (rt : Runtime) (s : ScheduledSync) :
  tidy rt -> scheduled (db rt) = Some s ->
  outcome (promise s) (log rt) = None.
Proof.
  intros [D _] Hs. apply outcome_None. unfold ids in D.
  apply NoDup_app in D as (_ & D & _). apply D.
  unfold pending. rewrite Hs. simpl. left.
Qed.

(** X2.  An update inside the throttle window is never written by the store
    on its own.  In any state a store built by the constructor can reach in
    which no write is in flight and nothing is scheduled, an [update] that
    comes less than [syncThrottle] after [lastSync] changes the document in
    memory, and then, whatever timers fire and whatever completions arrive,
    no write starts and the promise of the batch stays pending, until the
    next call of [update] or [flush]. *)
Theorem throttled_update_is_never_written
    (p : string) (o : JsonDbOptions) (t0 : Z) (fs : FileSystem) (d : JsonDb)
    (es rest : list event) (now : Z) (data : value) :
  construct p o t0 fs = ReadyResolved d ->
  writing (db (run (boot d) es)) = false ->
  scheduled (db (run (boot d) es)) = None ->
  now < lastSync (meta (db (run (boot d) es))) + syncThrottle o ->
  forallb (fun e => negb (is_call e)) rest = true ->
  let rt := run (boot d) es in
  let call := update now data rt in
  getData (db (run (snd call) rest))
  = assignDeepWithDelete (payload (db rt)) data /\
  writes (run (snd call) rest) = writes rt /\
  observed (fst call) (run (snd call) rest) = None.
Proof.
  intros Hc Hw Hs Hlt Hq. cbv zeta.
  destruct (reachable p o t0 fs d es Hc) as (HC & HT & Ho).
  pose proof (update_consistent now data _ HC) as HC1.
  pose proof (update_payload now data (run (boot d) es)) as Hp.
  unfold update in *.
  match goal with |- context [store false now ?r] =>
    assert (Hlt' : now < lastSync (meta (db r)) + syncThrottle (options (db r)))
      by (simpl; rewrite Ho; exact Hlt);
    rewrite (store_idle_throttled now r Hw Hs Hlt') in * end.
  cbn [fst snd] in *.
  match goal with |- context [run ?r rest] =>
    destruct (quiet_run_idle rest r HC1 Hw Hq) as [E1 E2] end.
  unfold getData, writes, observed. rewrite E1, E2.
  split; [exact Hp|]. split; [reflexivity|].
  apply (fresh_unsettled _ HT).
Qed.

(** The second update of [armed_run], then its timer and a stray
    completion. *)
Lemma throttled_update_is_never_written_witness :
  1020 < 1000 + 100 /\
  writes (run armed_run [TimerFires 2 1100; WriteCompletes 1200 true])
  = [(1000, false, doc_a1)].
Proof.
  split; [lia|].
  exact (proj1 (proj2
    (throttled_update_is_never_written "p" scenario_options 1000 no_file
       (fresh_store 1000)
       [CallUpdate 1000 doc_a1; WriteCompletes 1010 true]
       [TimerFires 2 1100; WriteCompletes 1200 true] 1020 doc_a2b3
       eq_refl eq_refl eq_refl eq_refl eq_refl))).
Defined.

(** X3.  Each promise is settled at most once, and a batch that is still
    scheduled has not been settled: in every state a store built by the
    constructor can reach, the log settles no promise twice and the promise
    of the pending batch is pending. *)
Theorem promises_settle_once
    (p : string) (o : JsonDbOptions) (t0 : Z) (fs : FileSystem) (d : JsonDb)
    (es : list event) (s : ScheduledSync) :
  construct p o t0 fs = ReadyResolved d ->
  scheduled (db (run (boot d) es)) = Some s ->
  NoDup (settled_ids (log (run (boot d) es))) /\
  outcome (promise s) (log (run (boot d) es)) = None.
Proof.
  intros Hc Hs. destruct (reachable p o t0 fs d es Hc) as (_ & HT & _).
  split; [|apply pending_unsettled; assumption].
  destruct HT as [D _]. unfold ids in D.
  apply NoDup_app in D as (_ & _ & D). exact D.
Qed.

(** In [armed_run] the first call was settled and the batch is pending. *)
Lemma promises_settle_once_witness :
  settled_ids (log armed_run) = [0%nat] /\
  outcome 1%nat (log armed_run) = None.
Proof.
  split; [reflexivity|].
  exact (proj2 (promises_settle_once "p" scenario_options 1000 no_file
                  (fresh_store 1000)
                  [CallUpdate 1000 doc_a1; WriteCompletes 1010 true;
                   CallUpdate 1020 doc_a2b3]
                  {| timer := Some 2%nat; doItNow := false;
                     promise := 1%nat |}
                  eq_refl eq_refl)).
Defined.

(** ** What a flush waits for *)

Lemma store_writes_ext (f : bool) (now : Z) (rt : Runtime) :
  exists extra, writes (snd (store f now rt)) = writes rt ++ extra.
Proof.
  destruct (store_cases f now rt) as [(Hl & _)|(Hr & _)]; unfold writes.
  - exists []. rewrite Hl, app_nil_r. reflexivity.
  - rewrite Hr. destruct (start_write_spec f now rt) as (_ & -> & _).
    eexists. apply writes_of_start.
Qed.

Lemma resume_writes_ext (now : Z) (ok : bool) (rt : Runtime) :
  exists extra, writes (resume now ok rt) = writes rt ++ extra.
Proof.
  unfold resume. destruct (inflight rt) as [|w rest];
    [exists []; rewrite app_nil_r; reflexivity|].
  cbv zeta.
  match goal with |- context [after_write now ?r] =>
    assert (Hr : writes r = writes rt)
      by (destruct (w_batch w); reflexivity);
    assert (Ha : exists extra, writes (after_write now r) = writes r ++ extra)
  end.
  { unfold after_write, setTimeout.
    repeat case_match; try apply store_writes_ext;
      exists []; rewrite app_nil_r; reflexivity. }
  destruct Ha as [extra Ha]. exists extra. rewrite <- Hr, <- Ha. reflexivity.
Qed.

Lemma step_writes_ext (rt : Runtime) (e : event) :
  exists extra, writes (step rt e) = writes rt ++ extra.
Proof.
  destruct e as [now data|now|t now|now ok]; simpl.
  - unfold update.
    match goal with |- context [store false now ?r] =>
      destruct (store_writes_ext false now r) as [extra H] end.
    exists extra. exact H.
  - apply store_writes_ext.
  - unfold fire. destruct (existsb (timer_is t) (timers rt));
      [|exists []; rewrite app_nil_r; reflexivity].
    match goal with |- context [store false now ?r] =>
      destruct (store_writes_ext false now r) as [extra H] end.
    exists extra. exact H.
  - apply resume_writes_ext.
Qed.

Lemma written_step (D : value) (ws : list (Z * bool * value))
    (rt : Runtime) (e : event) :
  consistent rt -> is_call e = false ->
  written D ws rt -> written D ws (step rt e).
Proof.
  intros HC He [[t Hw] Hp].
  assert (Hp' : potential (step rt e) = S (length ws)).
  { rewrite <- Hp. destruct e; try discriminate; simpl.
    - apply fire_potential, HC.
    - apply resume_potential. }
  destruct (step_writes_ext rt e) as [extra Hx].
  split; [|exact Hp']. exists t. rewrite Hx, Hw.
  unfold potential in Hp'. rewrite Hx, Hw, !length_app in Hp'. simpl in Hp'.
  destruct extra; [apply app_nil_r|simpl in Hp'; lia].
Qed.

Lemma waiting_step (q : nat) (D : value) (ws : list (Z * bool * value))
    (rt : Runtime) (e : event) :
  consistent rt -> is_call e = false ->
  waiting q D ws rt ->
  waiting q D ws (step rt e) \/ written D ws (step rt e).
Proof.
  intros HC He (Hws & Hw & HD & (s & Hs & Hq & Hu) & Ho).
  destruct e as [| |t now|now ok]; try discriminate; simpl.
  - left. destruct (fire_keeps t now rt HC) as (E1 & E2 & _).
    unfold waiting, writes. rewrite E1, E2. eauto 10.
  - right. unfold resume.
    destruct (inflight rt) as [|w rest] eqn:Hi.
    { destruct HC as [_ H2 _ _ _]. rewrite Hw, Hi in H2. discriminate. }
    cbv zeta. unfold after_write at 1.
    assert (Hsc : forall b r, scheduled (db (put_db (set_writing false
                    (db (settle_batch b ok r))) (settle_batch b ok r)))
                  = scheduled (db r)) by (intros [] r; reflexivity).
    rewrite Hsc. cbn [db]. rewrite Hs, Hu.
    rewrite store_urgent_idle by reflexivity.
    match goal with |- written D ws (add_log _ (snd (start_write true now ?r))) =>
      destruct (start_write_spec true now r) as (_ & E2 & _ & _ & E5 & _);
      assert (Hr : writes r = ws /\ serialized (db r) = D)
        by (split; destruct (w_batch w); (exact Hws || exact HD)) end.
    destruct Hr as [Hr1 Hr2].
    unfold written, potential, writes, add_log. cbn [log db writes_of].
    rewrite E2, E5, writes_of_start. cbn [stored_data].
    unfold writes in Hr1. rewrite Hr1, Hr2, length_app. simpl.
    split; [eauto|lia].
Qed.

Lemma waiting_run (q : nat) (D : value) (ws : list (Z * bool * value))
    (es : list event) :
  forall rt : Runtime,
    consistent rt ->
    forallb (fun e => negb (is_call e)) es = true ->
    (waiting q D ws rt -> waiting q D ws (run rt es) \/ written D ws (run rt es))
    /\ (written D ws rt -> written D ws (run rt es)).
Proof.
  induction es as [|e es IH]; intros rt HC Hq; [auto|].
  simpl in Hq. apply andb_true_iff in Hq as [He Hq].
  apply negb_true_iff in He.
  destruct (IH (step rt e) (step_consistent rt e HC) Hq) as [IH1 IH2].
  simpl. split.
  - intros H. destruct (waiting_step q D ws rt e HC He H) as [H'|H'];
      [auto|right; auto].
  - intros H. apply IH2, written_step; assumption.
Qed.

(** X4.  What [flush] waits for is a write of the document as it is when
    [flush] is called.  In any state a store built by the constructor can
    reach, after a [flush] and whatever timers and completions follow (no
    further call): either no write has started yet, or exactly one has, an
    urgent one whose document is the document of the moment of the flush
    (through [beforeSync]); and once the promise of [flush] is settled it
    is the latter. *)
Theorem flush_writes_current_document
    (p : string) (o : JsonDbOptions) (t0 : Z) (fs : FileSystem) (d : JsonDb)
    (es rest : list event) (now : Z) :
  construct p o t0 fs = ReadyResolved d ->
  forallb (fun e => negb (is_call e)) rest = true ->
  let rt := run (boot d) es in
  let call := flush now rt in
  let rt' := run (snd call) rest in
  (writes rt' = writes rt \/
   exists t, writes rt' = writes rt ++ [(t, true, serialized (db rt))]) /\
  (observed (fst call) rt' <> None ->
   exists t, writes rt' = writes rt ++ [(t, true, serialized (db rt))]).
Proof.
  intros Hc Hq. cbv zeta.
  destruct (reachable p o t0 fs d es Hc) as (HC & HT & _).
  set (rt := run (boot d) es) in *.
  pose proof (store_consistent true now rt HC) as HC1.
  pose proof (extends_tidy _ _ HT (store_extends true now rt HC)) as HT1.
  unfold flush.
  destruct (writing (db rt)) eqn:Hw.
  - destruct (store_while_writing true now rt Hw)
      as (E1 & E2 & E3 & s & E4 & E5 & E6 & _).
    assert (HW : waiting (promise s) (serialized (db rt)) (writes rt)
                   (snd (store true now rt))).
    { unfold waiting, writes. rewrite E1, E3. split; [reflexivity|].
      split; [reflexivity|]. split.
      - unfold serialized.
        destruct (store_static true now rt) as (-> & -> & _). reflexivity.
      - split; [eauto|]. rewrite <- E1.
        apply (pending_unsettled _ s HT1 E4). }
    destruct (waiting_run (promise s) (serialized (db rt)) (writes rt) rest
                _ HC1 Hq) as [HR _].
    destruct (HR HW) as [(G1 & _ & _ & _ & G5)|[G _]].
    + split; [left; exact G1|]. rewrite E5. simpl. congruence.
    + split; [right; exact G|]. intros _. exact G.
  - rewrite (store_urgent_idle now rt Hw) in *.
    destruct (start_write_spec true now rt) as (_ & E2 & _ & _ & E5 & _).
    assert (HW : written (serialized (db rt)) (writes rt)
                   (snd (start_write true now rt))).
    { unfold written, potential, writes. rewrite E2, E5, writes_of_start.
      rewrite length_app. simpl. split; [eauto|lia]. }
    destruct (waiting_run 0%nat (serialized (db rt)) (writes rt) rest
                _ HC1 Hq) as [_ HR].
    destruct (HR HW) as [G _]. split; [right; exact G|]. intros _. exact G.
Qed.

(** The flush of the coalescing scenario, queued behind the write of
    [{a:1}], then the two completions. *)
Lemma flush_writes_current_document_witness :
  observed (fst (flush 1000 (before_flush 1000 1000 1000)))
    (run (snd (flush 1000 (before_flush 1000 1000 1000)))
       [WriteCompletes 1010 true; WriteCompletes 1020 true])
  = Some true /\
  exists t,
    writes (run (snd (flush 1000 (before_flush 1000 1000 1000)))
              [WriteCompletes 1010 true; WriteCompletes 1020 true])
    = writes (before_flush 1000 1000 1000) ++ [(t, true, doc_a2b3)].
Proof.
  split; [reflexivity|].
  refine (proj2 (flush_writes_current_document "p" scenario_options 1000
                   no_file (fresh_store 1000)
                   [CallUpdate 1000 doc_a1; CallUpdate 1000 doc_a2b3]
                   [WriteCompletes 1010 true; WriteCompletes 1020 true] 1000
                   eq_refl eq_refl) _).
  discriminate.
Defined.

(** ** Loading, again *)

(** X5.  [isReady] rejects in exactly two cases: [throwIfNotExists] is set
    and there is no file at the path; or the folder of the path is missing
    and [mkdirpSync], which is called before the [try], cannot create it.
    In every other case it resolves, whatever the file holds, and [read]
    leaves the folder in place and the file as it was. *)
Theorem ready_rejects_without_file_or_folder
    (p : string) (o : JsonDbOptions) (now : Z) (fs : FileSystem) :
  (construct p o now fs = ReadyRejected <->
   (throwIfNotExists o = true /\ file_at_path fs = FileMissing) \/
   fs = NoFolder false) /\
  (construct p o now fs <> ReadyRejected ->
   folder_exists (snd (read o fs)) = true /\
   file_at_path (snd (read o fs)) = file_at_path fs).
Proof.
  unfold construct, read, existsSync_path.
  destruct (throwIfNotExists o), fs as [[]|[| | |raw]];
    cbn [file_at_path folder_exists mkdirpSync negb andb fst snd];
    try destruct (isValidData raw) as [|[]];
    cbn [file_at_path folder_exists fst snd];
    (split; [split; [try discriminate; auto
                    |try (intros [[? ?]|?]; discriminate); auto]
            |try (intros _; split; reflexivity); congruence]).
Qed.

(** ** The document in memory *)

Lemma step_document (rt : Runtime) (e : event) :
  payload (db (step rt e))
  = match e with
    | CallUpdate _ data => assignDeepWithDelete (payload (db rt)) data
    | _ => payload (db rt)
    end /\
  lastUpdate (meta (db (step rt e)))
  = match e with
    | CallUpdate now _ => now
    | _ => lastUpdate (meta (db rt))
    end.
Proof.
  destruct e as [now data|now|t now|now ok]; cbn [step].
  - unfold update.
    match goal with |- context [store false now ?r] =>
      destruct (store_static false now r) as (-> & _ & _ & _ & ->) end.
    auto.
  - unfold flush.
    destruct (store_static true now rt) as (-> & _ & _ & _ & ->). auto.
  - unfold fire. destruct (existsb (timer_is t) (timers rt)); [|auto].
    match goal with |- context [store false now ?r] =>
      destruct (store_static false now r) as (-> & _ & _ & _ & ->) end.
    auto.
  - destruct (resume_static now ok rt) as (-> & _ & _ & _ & ->). auto.
Qed.

(** X7.  The document in memory depends on the updates alone.  A
    [beforeSync] hook is handed the document itself and may change it
    (lines 26-34, 357); for a store without that hook, after any sequence
    of events, [getData] is the initial document with the partial updates
    merged in, in the order of the calls: flushes, timers and writes,
    completed or failed, never touch it; and [lastUpdate] is the time of
    the last call of [update]. *)
Theorem document_follows_updates (es : list event) :
  forall rt : Runtime,
    beforeSync (options (db rt)) = None ->
    getData (db (run rt es))
    = fold_left assignDeepWithDelete (updates_of es) (payload (db rt)) /\
    lastUpdate (meta (db (run rt es)))
    = last_update_time es (lastUpdate (meta (db rt))).
Proof.
  induction es as [|e es IH]; intros rt Hb; [auto|].
  simpl run.
  assert (Hb' : beforeSync (options (db (step rt e))) = None).
  { destruct (step_static rt e) as (-> & _). exact Hb. }
  destruct (IH (step rt e) Hb') as [H1 H2].
  destruct (step_document rt e) as [G1 G2].
  unfold getData in *. rewrite H1, H2, G1, G2.
  destruct e; auto.
Qed.

(** Two updates, the first written at once and its write failing. *)
Lemma document_follows_updates_witness :
  getData (db (run (boot (fresh_store 1000))
                 [CallUpdate 1000 doc_a1; CallUpdate 1005 doc_a2b3;
                  WriteCompletes 1010 false]))
  = doc_a2b3 /\
  lastUpdate (meta (db (run (boot (fresh_store 1000))
                          [CallUpdate 1000 doc_a1; CallUpdate 1005 doc_a2b3;
                           WriteCompletes 1010 false])))
  = 1005.
Proof.
  exact (document_follows_updates
           [CallUpdate 1000 doc_a1; CallUpdate 1005 doc_a2b3;
            WriteCompletes 1010 false]
           (boot (fresh_store 1000)) eq_refl).
Defined.

(** * Properties of the model of followers *)

Lemma includes_In (l : list string) (x : string) :
  includes l x = true <-> In x l.
Proof.
  unfold includes. rewrite existsb_exists. split.
  - intros (y & Hy & He). apply String.eqb_eq in He. subst. exact Hy.
  - intros H. exists x. split; [exact H|apply String.eqb_refl].
Qed.

Lemma includes_false (l : list string) (x : string) :
  includes l x = false <-> ~ In x l.
Proof.
  rewrite <- includes_In. destruct (includes l x); split; congruence.
Qed.

Lemma filter_nil_iff {A : Type} (f : A -> bool) (l : list A) :
  List.filter f l = [] <-> forall x, In x l -> f x = false.
Proof.
  induction l as [|a l IH]; simpl; [tauto|].
  destruct (f a) eqn:Ha.
  - split; [discriminate|]. intros H. specialize (H a (or_introl eq_refl)).
    congruence.
  - rewrite IH. split.
    + intros H x [<-|Hx]; auto.
    + intros H x Hx. apply H. right. exact Hx.
Qed.

(** X8.  [calculateAccountListDiff] returns [undefined] exactly when the
    two snapshots hold the same accounts, whatever their order and
    repetitions. *)
Theorem no_diff_iff_same_accounts
    (before after : AccountListSnapshot) (date : option string)
    (today : string) :
  calculateAccountListDiff before after date today = None <->
  (forall x, In x (accounts before) <-> In x (accounts after)).
Proof.
  unfold calculateAccountListDiff. cbv zeta.
  set (new_ := List.filter _ (accounts after)).
  set (gone := List.filter _ (accounts before)).
  assert (Hn : new_ = [] <->
               forall x, In x (accounts after) -> In x (accounts before)).
  { unfold new_. rewrite filter_nil_iff. split; intros H x Hx.
    - specialize (H x Hx). apply negb_false_iff, includes_In in H. exact H.
    - apply negb_false_iff, includes_In. auto. }
  assert (Hg : gone = [] <->
               forall x, In x (accounts before) -> In x (accounts after)).
  { unfold gone. rewrite filter_nil_iff. split; intros H x Hx.
    - specialize (H x Hx). apply negb_false_iff, includes_In in H. exact H.
    - apply negb_false_iff, includes_In. auto. }
  destruct new_ as [|a n]; destruct gone as [|b g]; simpl.
  - split; [|reflexivity]. intros _ x. split.
    + apply Hg. reflexivity.
    + apply Hn. reflexivity.
  - split; [discriminate|]. intros H.
    assert (b :: g = []) by (apply Hg; intros x; apply H). discriminate.
  - split; [discriminate|]. intros H.
    assert (a :: n = []) by (apply Hn; intros x; apply H). discriminate.
  - split; [discriminate|]. intros H.
    assert (a :: n = []) by (apply Hn; intros x; apply H). discriminate.
Qed.

(** X9.  A difference leads from one snapshot to the next.  When
    [calculateAccountListDiff] returns a difference, it lists at least one
    account; the added ones are accounts of [after] that [before] does not
    hold, the removed ones accounts of [before] that [after] does not hold;
    and taking the removed accounts out of [before] and adding the added
    ones gives exactly the accounts of [after]. *)
Theorem diff_leads_to_after
    (before after : AccountListSnapshot) (date : option string)
    (today : string) (d : AccountListDiff) :
  calculateAccountListDiff before after date today = Some d ->
  (added d <> None \/ removed d <> None) /\
  added d <> Some [] /\ removed d <> Some [] /\
  (forall x, In x (default [] (added d)) <->
             In x (accounts after) /\ ~ In x (accounts before)) /\
  (forall x, In x (default [] (removed d)) <->
             In x (accounts before) /\ ~ In x (accounts after)) /\
  (forall x, In x (apply_diff (accounts before) d) <->
             In x (accounts after)).
Proof.
  unfold calculateAccountListDiff. cbv zeta.
  set (new_ := List.filter _ (accounts after)).
  set (gone := List.filter _ (accounts before)).
  assert (Hn : forall x, In x new_ <->
                         In x (accounts after) /\ ~ In x (accounts before)).
  { intros x. unfold new_. rewrite filter_In, negb_true_iff, includes_false.
    tauto. }
  assert (Hg : forall x, In x gone <->
                         In x (accounts before) /\ ~ In x (accounts after)).
  { intros x. unfold gone. rewrite filter_In, negb_true_iff, includes_false.
    tauto. }
  intros H.
  assert (Ha : default [] (added d) = new_ /\ default [] (removed d) = gone
               /\ (added d <> None \/ removed d <> None)
               /\ added d <> Some [] /\ removed d <> Some []).
  { destruct new_ as [|a n]; destruct gone as [|b g]; simpl in H;
      try discriminate; injection H as <-; simpl;
      repeat split; auto; try discriminate;
      (left; discriminate) || (right; discriminate). }
  destruct Ha as (Ea & Er & Hne & Hna & Hnr).
  repeat (split; [assumption|]).
  split; [rewrite Ea; exact Hn|]. split; [rewrite Er; exact Hg|].
  intros x. unfold apply_diff. rewrite in_app_iff, filter_In, Ea, Er.
  rewrite negb_true_iff, includes_false, Hn, Hg.
  destruct (in_dec string_dec x (accounts before));
    destruct (in_dec string_dec x (accounts after)); tauto.
Qed.

(** Two followers gone, one new. *)
Lemma diff_leads_to_after_witness :
  calculateAccountListDiff
    {| snapshot_date := "d1"; accounts := ["did:a"; "did:b"; "did:c"] |}
    {| snapshot_date := "d2"; accounts := ["did:d"; "did:b"] |}
    None "d2"
  = Some {| diff_date := "d2"; added := Some ["did:d"];
            removed := Some ["did:a"; "did:c"] |} /\
  (In "did:d" (apply_diff ["did:a"; "did:b"; "did:c"]
                 {| diff_date := "d2"; added := Some ["did:d"];
                    removed := Some ["did:a"; "did:c"] |})
   <-> In "did:d" ["did:d"; "did:b"]).
Proof.
  split; [reflexivity|].
  exact (proj2 (proj2 (proj2 (proj2 (proj2
    (diff_leads_to_after
       {| snapshot_date := "d1"; accounts := ["did:a"; "did:b"; "did:c"] |}
       {| snapshot_date := "d2"; accounts := ["did:d"; "did:b"] |}
       None "d2" _ eq_refl))))) "did:d").
Defined.

Lemma findIndex_None (d : string) (l : list ProfileView) :
  findIndex d l = None <-> ~ In d (map did l).
Proof.
  induction l as [|a l IH]; simpl; [tauto|].
  destruct (String.eqb_spec (did a) d) as [->|Hne].
  - split; [discriminate|]. intros H. exfalso. apply H. left. reflexivity.
  - destruct (findIndex d l); simpl.
    + split; [discriminate|]. intros H. exfalso.
      assert (Hn : ~ In d (map did l)) by tauto.
      apply IH in Hn. discriminate.
    + split; [|reflexivity]. intros _ [H|H]; [congruence|].
      apply IH in H; [exact H|reflexivity].
Qed.

Lemma findIndex_Some (d : string) (l : list ProfileView) (i : nat) :
  findIndex d l = Some i ->
  exists a, nth_error l i = Some a /\ did a = d /\
            l = firstn i l ++ [a] ++ skipn (S i) l.
Proof.
  revert i. induction l as [|a l IH]; intros i; simpl; [discriminate|].
  destruct (String.eqb_spec (did a) d) as [Hd|Hne].
  - intros [= <-]. exists a. simpl. rewrite drop_0. auto.
  - destruct (findIndex d l) as [j|]; simpl; [|discriminate].
    intros [= <-]. destruct (IH j eq_refl) as (b & H1 & H2 & H3).
    exists b. simpl. split; [exact H1|]. split; [exact H2|].
    f_equal. exact H3.
Qed.

(** X10.  [addAccount] keeps the list of known accounts keyed by DID.  When
    it submits an array, the account is in it; the sequence of DIDs is the
    old one, with the DID of the account appended if it was not known; so
    DIDs that were unique stay unique, and every other account is kept as
    it was.  It submits nothing exactly when [onlyIfNew] is set and the DID
    is already known. *)
Theorem addAccount_keeps_dids
    (known : list ProfileView) (account : ProfileView) (onlyIfNew : bool) :
  (addAccount known account onlyIfNew = None <->
   onlyIfNew = true /\ In (did account) (map did known)) /\
  forall l, addAccount known account onlyIfNew = Some l ->
    In account l /\
    map did l = (if includes (map did known) (did account)
                 then map did known
                 else map did known ++ [did account]) /\
    (NoDup (map did known) -> NoDup (map did l)) /\
    (forall a, In a known -> did a <> did account -> In a l).
Proof.
  unfold addAccount.
  destruct (findIndex (did account) known) as [i|] eqn:Hf.
  - assert (Hin : In (did account) (map did known)).
    { destruct (in_dec string_dec (did account) (map did known)) as [H|H];
        [exact H|]. apply findIndex_None in H. congruence. }
    destruct (findIndex_Some _ _ _ Hf) as (b & Hb & Hd & Hl).
    split.
    + destruct onlyIfNew; split; try discriminate; auto.
      intros [? _]. discriminate.
    + intros l Hs. destruct onlyIfNew; [discriminate|]. injection Hs as <-.
      assert (Hm : map did (firstn i known ++ account :: skipn (S i) known)
                   = map did known).
      { rewrite Hl at 3. rewrite !map_app. simpl. rewrite Hd. reflexivity. }
      change ([account] ++ skipn (S i) known)
        with (account :: skipn (S i) known).
      split; [apply in_or_app; right; left; reflexivity|].
      split; [rewrite Hm, (proj2 (includes_In _ _) Hin); reflexivity|].
      split; [rewrite Hm; auto|].
      intros a Ha Hne. rewrite Hl in Ha.
      apply in_app_or in Ha as [Ha|[Ha|Ha]].
      * apply in_or_app. left. exact Ha.
      * subst a. congruence.
      * apply in_or_app. right. right. exact Ha.
  - assert (Hin : ~ In (did account) (map did known))
      by (apply findIndex_None; exact Hf).
    split.
    + split; [discriminate|]. intros [_ H]. contradiction.
    + intros l [= <-].
      split; [apply in_or_app; right; left; reflexivity|].
      split; [rewrite (proj2 (includes_false _ _) Hin), map_app;
              reflexivity|].
      split.
      * intros Hnd. rewrite map_app. simpl. apply NoDup_app.
        split; [exact Hnd|]. split; [|apply NoDup_singleton].
        intros x Hx Hx'. apply list_elem_of_singleton in Hx'. subst.
        apply Hin, list_elem_of_In, Hx.
      * intros a Ha _. apply in_or_app. left. exact Ha.
Qed.

(** * Properties of the tables of text *)

Lemma string_length_append (s1 s2 : string) :
  String.length (String.append s1 s2)
  = (String.length s1 + String.length s2)%nat.
Proof. induction s1 as [|c s1 IH]; simpl; [reflexivity|]. rewrite IH. reflexivity. Qed.

Lemma spaces_length (n : nat) : String.length (spaces n) = n.
Proof. induction n as [|n IH]; simpl; [reflexivity|]. rewrite IH. reflexivity. Qed.

Lemma padEnd_length (text : string) (n : nat) :
  String.length (padEnd text n) = Nat.max (String.length text) n.
Proof. unfold padEnd. rewrite string_length_append, spaces_length. lia. Qed.

Lemma concat_length (sep : string) (l : list string) :
  String.length (String.concat sep l)
  = (list_sum (map String.length l)
     + String.length sep * (length l - 1))%nat.
Proof.
  induction l as [|a l IH]; [simpl; lia|].
  destruct l as [|b l]; [simpl; lia|].
  change (String.concat sep (a :: b :: l))
    with (String.append a (String.append sep (String.concat sep (b :: l)))).
  rewrite !string_length_append, IH. simpl. lia.
Qed.

Lemma next_widths_nth (w : list nat) (row : list string) (j : nat) :
  (j < length row)%nat ->
  nth j (next_widths w row) 0%nat
  = Nat.max (String.length (nth j row EmptyString)) (nth j w 0%nat).
Proof.
  intros Hj. unfold next_widths, stripFormat.
  destruct (lookup_lt_is_Some_2 row j Hj) as [c Hc].
  erewrite (nth_lookup_Some (imap _ row) j 0%nat);
    [|rewrite list_lookup_imap, Hc; reflexivity].
  rewrite (nth_lookup_Some row j EmptyString c Hc). reflexivity.
Qed.

Lemma column_widths_spec (n : nat) (rest : list (list string)) :
  forall (row : list string) (acc : list nat),
    Forall (fun r => length r = n) (row :: rest) ->
    length (fold_left next_widths (row :: rest) acc) = n /\
    forall j, (j < n)%nat ->
      nth j (fold_left next_widths (row :: rest) acc) 0%nat
      = Nat.max (nth j acc 0%nat) (column_max j (row :: rest)).
Proof.
  induction rest as [|r rest IH]; intros row acc HF.
  - inversion HF as [|? ? Hr _]; subst. simpl. split.
    + unfold next_widths. apply length_imap.
    + intros j Hj. rewrite next_widths_nth by exact Hj.
      unfold column_max. simpl. lia.
  - inversion HF as [|? ? Hr HF']; subst.
    change (fold_left next_widths (row :: r :: rest) acc)
      with (fold_left next_widths (r :: rest) (next_widths acc row)).
    destruct (IH r (next_widths acc row) HF') as [H1 H2].
    split; [exact H1|]. intros j Hj. rewrite (H2 j Hj).
    rewrite next_widths_nth by exact Hj.
    unfold column_max. simpl. lia.
Qed.

Lemma column_max_ge (j : nat) (table : list (list string)) (row : list string) :
  In row table ->
  (String.length (nth j row EmptyString) <= column_max j table)%nat.
Proof.
  unfold column_max. induction table as [|r table IH]; simpl; [tauto|].
  intros [->|H]; [lia|]. specialize (IH H). lia.
Qed.

(** X11.  The width of a column is its longest cell.  For a table whose
    rows all have [n] cells, [tabulateText] computes one width per column,
    the length of the longest cell of that column. *)
Theorem column_widths_are_maxima
    (n : nat) (row : list string) (rest : list (list string)) (j : nat) :
  Forall (fun r => length r = n) (row :: rest) ->
  (j < n)%nat ->
  length (column_widths (row :: rest)) = n /\
  nth j (column_widths (row :: rest)) 0%nat = column_max j (row :: rest).
Proof.
  intros HF Hj. unfold column_widths.
  destruct (column_widths_spec n rest row [] HF) as [H1 H2].
  split; [exact H1|]. rewrite (H2 j Hj). destruct j; simpl; lia.
Qed.

(** The widths of a table of two rows and two columns. *)
Lemma column_widths_are_maxima_witness :
  column_widths [["a"; "bcd"]; ["efgh"; "i"]] = [4%nat; 3%nat] /\
  nth 1 (column_widths [["a"; "bcd"]; ["efgh"; "i"]]) 0%nat
  = column_max 1 [["a"; "bcd"]; ["efgh"; "i"]].
Proof.
  split; [reflexivity|].
  refine (proj2 (column_widths_are_maxima 2 ["a"; "bcd"] [["efgh"; "i"]] 1
                   _ _)).
  - repeat constructor.
  - lia.
Defined.

Lemma padded_cells_lengths (opt : option TabulateTextOptions)
    (widths : list nat) (row : list string) :
  length widths = length row ->
  (forall j, (j < length row)%nat ->
     (String.length (nth j row EmptyString) <= nth j widths 0)%nat) ->
  map String.length (imap (pad (tabulate_opt opt) widths) row) = widths.
Proof.
  intros Hl Hw. apply (nth_ext _ _ 0%nat 0%nat).
  - rewrite length_map, length_imap. symmetry. exact Hl.
  - intros j Hj. rewrite length_map, length_imap in Hj.
    destruct (lookup_lt_is_Some_2 row j Hj) as [c Hc].
    erewrite (nth_lookup_Some (map _ _) j 0%nat);
      [|rewrite list_lookup_fmap, list_lookup_imap, Hc; reflexivity].
    unfold pad. simpl. rewrite padEnd_length.
    specialize (Hw j Hj). rewrite (nth_lookup_Some row j EmptyString c Hc) in Hw.
    lia.
Qed.

(** X12.  The lines of a table line up.  For a table whose rows all have
    [n] cells, and whatever options are passed, [tabulateText] returns one
    line per row and all lines have the same length: the widths of the
    columns, one space between columns and one at each end. *)
Theorem tabulateText_lines_have_equal_length
    (n : nat) (table : list (list string))
    (options : option TabulateTextOptions) (line : string) :
  Forall (fun r => length r = n) table ->
  In line (tabulateText table options) ->
  length (tabulateText table options) = length table /\
  String.length line
  = (2 + list_sum (column_widths table) + (n - 1))%nat.
Proof.
  intros HF Hin. unfold tabulateText in *. cbv zeta in *.
  split; [apply length_map|].
  apply in_map_iff in Hin as (row & <- & Hrow).
  destruct table as [|r0 rest]; [contradiction|].
  destruct (column_widths_spec n rest r0 [] HF) as [H1 H2].
  fold (column_widths (r0 :: rest)) in H1, H2.
  assert (Hn : length row = n).
  { rewrite Forall_forall in HF. apply HF. apply list_elem_of_In. exact Hrow. }
  rewrite !string_length_append, concat_length.
  rewrite padded_cells_lengths.
  - rewrite length_imap, Hn. simpl. lia.
  - rewrite H1, Hn. reflexivity.
  - intros j Hj. rewrite Hn in Hj. rewrite (H2 j Hj).
    pose proof (column_max_ge j (r0 :: rest) row Hrow). lia.
Qed.

(** The two lines of the table of [column_widths_are_maxima_witness]. *)
Lemma tabulateText_lines_have_equal_length_witness :
  tabulateText [["a"; "bcd"]; ["efgh"; "i"]] None
  = [" a    bcd "; " efgh i   "] /\
  String.length " efgh i   " = (2 + (4 + 3) + (2 - 1))%nat.
Proof.
  split; [reflexivity|].
  refine (proj2 (tabulateText_lines_have_equal_length 2
                   [["a"; "bcd"]; ["efgh"; "i"]] None " efgh i   " _ _)).
  - repeat constructor.
  - right. left. reflexivity.
Defined.

Lemma string_append_assoc (s1 s2 s3 : string) :
  String.append (String.append s1 s2) s3
  = String.append s1 (String.append s2 s3).
Proof.
  induction s1 as [|c s1 IH]; [reflexivity|].
  change (String c (String.append (String.append s1 s2) s3)
          = String c (String.append s1 (String.append s2 s3))).
  rewrite IH. reflexivity.
Qed.

(** Where the element [j] sits in a joined list. *)
Lemma concat_split (sep : string) (cs : list string) :
  forall (j : nat) (c : string),
    cs !! j = Some c ->
    exists pre post,
      String.concat sep cs = String.append pre (String.append c post) /\
      String.length pre
      = (list_sum (map String.length (firstn j cs))
         + j * String.length sep)%nat.
Proof.
  induction cs as [|a cs IH]; intros j c Hj; [discriminate|].
  destruct j as [|j].
  - injection Hj as ->. exists EmptyString.
    destruct cs as [|b cs].
    + exists EmptyString. split; [|reflexivity].
      change (c = String.append c EmptyString).
      induction c as [|x c IHc]; [reflexivity|].
      change (String x c = String x (String.append c EmptyString)).
      rewrite <- IHc. reflexivity.
    + exists (String.append sep (String.concat sep (b :: cs))).
      split; reflexivity.
  - change ((a :: cs) !! S j) with (cs !! j) in Hj.
    destruct cs as [|b cs]; [discriminate|].
    destruct (IH j c Hj) as (pre & post & Hc & Hl).
    exists (String.append a (String.append sep pre)), post. split.
    + change (String.concat sep (a :: b :: cs))
        with (String.append a
                (String.append sep (String.concat sep (b :: cs)))).
      rewrite Hc, !string_append_assoc. reflexivity.
    + rewrite !string_length_append, Hl.
      change (firstn (S j) (a :: b :: cs)) with (a :: firstn j (b :: cs)).
      simpl map. simpl list_sum. lia.
Qed.

(** X13.  The columns of a table line up and the cells are kept.  For a
    table whose rows all have [n] cells, and whatever options are passed,
    the line of a row holds the text of its cell [j], unchanged, at an
    offset that is the same in every line: one space, then the widths of
    the columns before it and one space after each. *)
Theorem tabulateText_columns_line_up
    (n : nat) (table : list (list string))
    (options : option TabulateTextOptions)
    (i j : nat) (row : list string) (cell : string) :
  Forall (fun r => length r = n) table ->
  table !! i = Some row -> row !! j = Some cell ->
  exists line pre post,
    tabulateText table options !! i = Some line /\
    line = String.append pre (String.append cell post) /\
    String.length pre
    = (1 + list_sum (firstn j (column_widths table)) + j)%nat.
Proof.
  intros HF Hi Hj. unfold tabulateText. cbv zeta.
  rewrite list_lookup_fmap, Hi. cbn [fmap option_fmap option_map].
  destruct table as [|r0 rest]; [discriminate|].
  destruct (column_widths_spec n rest r0 [] HF) as [H1 H2].
  fold (column_widths (r0 :: rest)) in H1, H2.
  assert (Hrow : In row (r0 :: rest))
    by (apply list_elem_of_In; eapply list_elem_of_lookup_2; exact Hi).
  assert (Hn : length row = n).
  { rewrite Forall_forall in HF. apply HF. apply list_elem_of_In. exact Hrow. }
  set (widths := column_widths (r0 :: rest)) in *.
  assert (Hcells : map String.length (imap (pad (tabulate_opt options) widths) row)
                   = widths).
  { apply padded_cells_lengths; [rewrite H1, Hn; reflexivity|].
    intros k Hk. rewrite Hn in Hk. rewrite (H2 k Hk).
    pose proof (column_max_ge k (r0 :: rest) row Hrow). lia. }
  assert (Hc : imap (pad (tabulate_opt options) widths) row !! j
               = Some (padEnd cell (nth j widths 0%nat)))
    by (rewrite list_lookup_imap, Hj; reflexivity).
  destruct (concat_split " " _ j _ Hc) as (pre & post & Hs & Hl).
  eexists. exists (String.append " " pre).
  exists (String.append
            (spaces (nth j widths 0%nat - String.length cell))
            (String.append post " ")).
  split; [reflexivity|]. split.
  - cbn [tabulate_opt opt_paddingLeft opt_paddingInner opt_paddingRight].
    rewrite Hs. unfold padEnd. rewrite !string_append_assoc. reflexivity.
  - rewrite string_length_append, Hl.
    rewrite <- firstn_map, Hcells. simpl. lia.
Qed.

(** The second cell of the second row starts at offset 6: one space, the
    four characters of the first column, one space. *)
Lemma tabulateText_columns_line_up_witness :
  exists line pre post,
    tabulateText [["a"; "bcd"]; ["efgh"; "i"]] None !! 1%nat = Some line /\
    line = String.append pre (String.append "i" post) /\
    String.length pre
    = (1 + list_sum (firstn 1 (column_widths [["a"; "bcd"]; ["efgh"; "i"]]))
       + 1)%nat.
Proof.
  refine (tabulateText_columns_line_up 2 [["a"; "bcd"]; ["efgh"; "i"]] None
            1 1 ["efgh"; "i"] "i" _ eq_refl eq_refl).
  repeat constructor.
Defined.

(** * Properties of the environment variables *)

Lemma read_one_spec (env : gmap string string) (data : gmap string env_value)
    (errors : list string) (nd : name_or_def) :
  read_one env (data, errors) nd
  = match env_result env (as_def nd) with
    | inl (Some v) => (<[def_name (as_def nd) := v]> data, errors)
    | inl None => (data, errors)
    | inr e => (data, errors ++ [e])
    end.
Proof.
  unfold read_one, env_result.
  destruct (env !! def_name (as_def nd)) as [raw|].
  - destruct (def_value (as_def nd)) as [f|]; [|reflexivity].
    destruct (f raw); reflexivity.
  - destruct (def_optional (as_def nd)); simpl; [|reflexivity].
    destruct (def_default (as_def nd)); reflexivity.
Qed.

Lemma fold_read_one (env : gmap string string) (defs : list name_or_def) :
  forall (data : gmap string env_value) (errors : list string),
    snd (fold_left (read_one env) defs (data, errors))
    = errors ++ errors_of env defs /\
    (forall k, ~ In k (map (fun nd => def_name (as_def nd)) defs) ->
       fst (fold_left (read_one env) defs (data, errors)) !! k = data !! k) /\
    (NoDup (map (fun nd => def_name (as_def nd)) defs) ->
     forall nd v, In nd defs -> env_result env (as_def nd) = inl v ->
       fst (fold_left (read_one env) defs (data, errors))
         !! def_name (as_def nd)
       = match v with
         | Some x => Some x
         | None => data !! def_name (as_def nd)
         end).
Proof.
  induction defs as [|nd0 defs IH]; intros data errors.
  - simpl. rewrite app_nil_r. repeat split; auto. intros _ nd v [].
  - cbn [fold_left]. rewrite read_one_spec.
    set (acc := match env_result env (as_def nd0) with
                | inl (Some v) => (<[def_name (as_def nd0) := v]> data, errors)
                | inl None => (data, errors)
                | inr e => (data, errors ++ [e])
                end).
    destruct (IH (fst acc) (snd acc)) as (E1 & E2 & E3).
    rewrite <- surjective_pairing in E1, E2, E3.
    assert (Ha : snd acc ++ errors_of env defs
                 = errors ++ errors_of env (nd0 :: defs)).
    { unfold acc, errors_of. simpl.
      destruct (env_result env (as_def nd0)) as [[v|]|e]; simpl;
        rewrite <- ?app_assoc; reflexivity. }
    assert (Hk0 : forall k, k <> def_name (as_def nd0) ->
                            fst acc !! k = data !! k).
    { intros k Hk. unfold acc.
      destruct (env_result env (as_def nd0)) as [[v|]|e]; simpl; auto.
      apply lookup_insert_ne. congruence. }
    split; [rewrite E1; exact Ha|]. split.
    + intros k Hk. rewrite E2 by (intros H; apply Hk; right; exact H).
      apply Hk0. intros ->. apply Hk. left. reflexivity.
    + intros Hnd nd v Hin Hr. simpl in Hnd.
      apply NoDup_cons in Hnd as [Hnotin Hnd].
      destruct Hin as [<-|Hin].
      * rewrite E2 by (rewrite <- list_elem_of_In; exact Hnotin).
        unfold acc. rewrite Hr. destruct v; simpl; [|reflexivity].
        apply lookup_insert_eq.
      * rewrite (E3 Hnd nd v Hin Hr). destruct v; [reflexivity|].
        apply Hk0. intros Heq. apply Hnotin. rewrite <- Heq.
        apply list_elem_of_In, in_map_iff. exists nd. auto.
Qed.

Lemma errors_of_nil (env : gmap string string) (defs : list name_or_def) :
  errors_of env defs = [] <->
  forall nd, In nd defs -> exists v, env_result env (as_def nd) = inl v.
Proof.
  unfold errors_of. induction defs as [|nd0 defs IH]; simpl.
  - split; [intros _ nd []|reflexivity].
  - destruct (env_result env (as_def nd0)) as [v|e] eqn:Hr; simpl.
    + rewrite IH. split.
      * intros H nd [<-|Hin]; [eauto|auto].
      * intros H nd Hin. apply H. right. exact Hin.
    + split; [discriminate|]. intros H.
      destruct (H nd0 (or_introl eq_refl)) as [v Hv]. congruence.
Qed.

(** X14.  [readEnvVars] reads every variable or reports every problem.
    For definitions with distinct names: it returns exactly when no
    definition fails, that is when every variable that is not optional is
    set and no [value] hook throws; the data then holds, for each
    definition, the value of its hook on the variable (the variable itself
    without a hook), or its default when an optional variable is not set,
    and nothing for names that are not defined.  Otherwise it throws one
    error that lists the problems of all definitions, in their order. *)
Theorem readEnvVars_reads_or_reports
    (defs : list name_or_def) (env : gmap string string) :
  NoDup (map (fun nd => def_name (as_def nd)) defs) ->
  match readEnvVars defs env with
  | inl data =>
      errors_of env defs = [] /\
      (forall nd, In nd defs ->
         env_result env (as_def nd) = inl (data !! def_name (as_def nd))) /\
      (forall k, ~ In k (map (fun nd => def_name (as_def nd)) defs) ->
         data !! k = None)
  | inr message =>
      errors_of env defs <> [] /\
      message = String.append errors_header
                  (String.concat newline (errors_of env defs))
  end.
Proof.
  intros Hnd. unfold readEnvVars.
  destruct (fold_read_one env defs ∅ []) as (E1 & E2 & E3).
  destruct (fold_left (read_one env) defs (∅, [])) as [data errors].
  simpl in E1, E2, E3. subst errors.
  destruct (errors_of env defs) as [|e es] eqn:He.
  - split; [reflexivity|]. split.
    + intros nd Hin.
      destruct (proj1 (errors_of_nil env defs) He nd Hin) as [v Hv].
      rewrite (E3 Hnd nd v Hin Hv), Hv. destruct v; reflexivity.
    + intros k Hk. rewrite (E2 k Hk). apply lookup_empty.
  - split; [discriminate|reflexivity].
Qed.

(** The variables of the application with the account set and the password
    missing. *)
Lemma readEnvVars_reads_or_reports_witness :
  readEnvVars ENV_VARS {[ "BLUESKY_ACCOUNT_NAME" := "me.bsky.social" ]}
  = inr (String.append errors_header
           "process.env.BLUESKY_PASSWORD is not provided").
Proof.
  pose proof (readEnvVars_reads_or_reports ENV_VARS
                {[ "BLUESKY_ACCOUNT_NAME" := "me.bsky.social" ]}) as H.
  destruct (readEnvVars ENV_VARS
              {[ "BLUESKY_ACCOUNT_NAME" := "me.bsky.social" ]})
    as [data|message] eqn:Hr.
  - vm_compute in Hr. discriminate.
  - assert (Hnd : NoDup (map (fun nd => def_name (as_def nd)) ENV_VARS)).
    { simpl. repeat (apply NoDup_cons; split;
                     [rewrite list_elem_of_In; simpl; intuition discriminate|]).
      apply NoDup_nil. exact I. }
    destruct (H Hnd) as [_ ->]. reflexivity.
Defined.

(** X15.  The application starts only with an account and a password.
    [readEnvVars(ENV_VARS)] returns exactly when [BLUESKY_ACCOUNT_NAME] and
    [BLUESKY_PASSWORD] are both set; the data then holds these two as they
    are, and [PRINT_ENV_VARS] as a flag: [false] when the variable is not
    set, and otherwise whether it is [1], [t], [true] or [on] in any letter
    case. *)
Theorem app_needs_account_and_password (env : gmap string string) :
  match readEnvVars ENV_VARS env with
  | inl data =>
      (exists account password,
         env !! "BLUESKY_ACCOUNT_NAME" = Some account /\
         env !! "BLUESKY_PASSWORD" = Some password /\
         data !! "BLUESKY_ACCOUNT_NAME" = Some (EnvString account) /\
         data !! "BLUESKY_PASSWORD" = Some (EnvString password)) /\
      data !! "PRINT_ENV_VARS"
      = Some (EnvBool
                match env !! "PRINT_ENV_VARS" with
                | None => false
                | Some raw =>
                    bool_decide (toLowerCase raw ∈ ["1"; "t"; "true"; "on"])
                end)
  | inr _ =>
      env !! "BLUESKY_ACCOUNT_NAME" = None \/
      env !! "BLUESKY_PASSWORD" = None
  end.
Proof.
  assert (Hflag : forall raw,
            print_flag raw
            = inl (EnvBool (bool_decide
                              (toLowerCase raw ∈ ["1"; "t"; "true"; "on"])))).
  { intros raw. unfold print_flag. cbv zeta. do 2 f_equal.
    destruct (bool_decide_reflect
                (toLowerCase raw ∈ ["1"; "t"; "true"; "on"])) as [H|H].
    - rewrite !elem_of_cons in H.
      destruct H as [->|[->|[->|[->|H]]]]; try reflexivity.
      apply elem_of_nil in H. contradiction.
    - rewrite !orb_false_iff. repeat split; apply String.eqb_neq; intros E;
        apply H; rewrite E; repeat constructor. }
  unfold readEnvVars, ENV_VARS. cbn [fold_left]. unfold read_one.
  cbn [as_def def_name def_optional def_default def_value negb].
  destruct (env !! "PRINT_ENV_VARS") as [raw|];
    destruct (env !! "BLUESKY_ACCOUNT_NAME") as [account|];
    destruct (env !! "BLUESKY_PASSWORD") as [password|];
    rewrite ?Hflag; cbn [app]; auto.
  all: split; [exists account, password|]; repeat split; reflexivity.
Qed.

Lemma mask_length (s : string) : String.length (mask s) = String.length s.
Proof. induction s as [|c s IH]; simpl; [reflexivity|]. rewrite IH. reflexivity. Qed.

Lemma mask_chars (s : string) :
  Forall (fun c => c = "*"%char \/ line_terminator c = true)
    (list_ascii_of_string (mask s)).
Proof.
  induction s as [|c s IH]; simpl; constructor; [|exact IH].
  destruct (line_terminator c) eqn:Hc; auto.
Qed.

(** X16.  [printEnvVars] never prints a secret.  The line of a definition
    marked [secret] ends, after its name, with as many characters as the
    value has, each of them a star or a line terminator of the value. *)
Theorem printEnvVars_masks_secrets
    (defs : list name_or_def) (envVars : gmap string env_value)
    (i : nat) (nd : name_or_def) :
  defs !! i = Some nd ->
  def_secret (as_def nd) = true ->
  exists masked,
    printEnvVars_lines defs envVars !! i
    = Some (String.append " - "
              (String.append (def_name (as_def nd))
                 (String.append ": " masked))) /\
    String.length masked
    = String.length (shown (envVars !! def_name (as_def nd))) /\
    Forall (fun c => c = "*"%char \/ line_terminator c = true)
      (list_ascii_of_string masked).
Proof.
  intros Hi Hs. exists (mask (shown (envVars !! def_name (as_def nd)))).
  split; [|split; [apply mask_length|apply mask_chars]].
  unfold printEnvVars_lines. rewrite list_lookup_fmap, Hi. simpl.
  rewrite Hs. reflexivity.
Qed.

(** The password of the application is printed as stars. *)
Lemma printEnvVars_masks_secrets_witness :
  printEnvVars_lines ENV_VARS
    {[ "BLUESKY_ACCOUNT_NAME" := EnvString "me.bsky.social";
       "BLUESKY_PASSWORD" := EnvString "c2VjcmV0" ]} !! 2%nat
  = Some " - BLUESKY_PASSWORD: ********" /\
  exists masked,
    printEnvVars_lines ENV_VARS
      {[ "BLUESKY_ACCOUNT_NAME" := EnvString "me.bsky.social";
         "BLUESKY_PASSWORD" := EnvString "c2VjcmV0" ]} !! 2%nat
    = Some (String.append " - "
              (String.append "BLUESKY_PASSWORD" (String.append ": " masked)))
    /\ String.length masked = 8%nat.
Proof.
  split; [reflexivity|].
  destruct (printEnvVars_masks_secrets ENV_VARS
              {[ "BLUESKY_ACCOUNT_NAME" := EnvString "me.bsky.social";
                 "BLUESKY_PASSWORD" := EnvString "c2VjcmV0" ]} 2
              (Def {| def_name := "BLUESKY_PASSWORD"; def_optional := false;
                      def_default := None; def_value := None;
                      def_secret := true |}) eq_refl eq_refl)
    as (masked & H1 & H2 & _).
  exists masked. split; [exact H1|exact H2].
Defined.

(** * Properties of the client of the remote service *)

Lemma fetch_pages_logged_in (decode : string -> string) (login_ok : bool)
    (pages : list Page) :
  forall (last : Page) (extra : list (option Page)) (b : Bsky)
         (cursor : option string) (followers : list ProfileView),
    loggedIn b = true ->
    Forall (fun pg => more_pages (page_cursor pg) = true) pages ->
    more_pages (page_cursor last) = false ->
    fetch_pages decode login_ok
      (map Some (pages ++ [last]) ++ extra) b cursor followers
    = (Returned (followers ++ flat_map page_profiles (pages ++ [last])), b,
       map (ListRequest (identifier b) 100)
         (cursor :: map page_cursor pages),
       extra).
Proof.
  induction pages as [|pg pages IH];
    intros last extra b cursor followers Hb HF Hl.
  - simpl. unfold withLogin. rewrite Hb, Hl. simpl.
    rewrite app_nil_r. reflexivity.
  - inversion HF as [|? ? Hpg HF']; subst.
    cbn [app map fetch_pages]. unfold withLogin at 1. rewrite Hb.
    cbn [negb app]. rewrite Hpg.
    rewrite (IH last extra b (page_cursor pg)
               (followers ++ page_profiles pg) Hb HF' Hl).
    cbn [flat_map map app]. rewrite <- app_assoc. reflexivity.
Qed.

(** X17.  [getFollowers] follows the cursors to the last page.  When the
    service answers with pages that each carry a cursor and then with a
    page whose cursor is absent or empty, the call returns the followers of
    all these pages, in order; it logs in first, once, if the client was
    not logged in, and then asks for each page with a limit of 100 and the
    cursor of the page before (none for the first); it asks for nothing
    after the last page and leaves the client logged in. *)
Theorem getFollowers_collects_all_pages
    (decode : string -> string) (pages : list Page) (last : Page)
    (extra : list (option Page)) (b : Bsky) :
  Forall (fun pg => more_pages (page_cursor pg) = true) pages ->
  more_pages (page_cursor last) = false ->
  getFollowers decode true (map Some (pages ++ [last]) ++ extra) b
  = (Returned (flat_map page_profiles (pages ++ [last])),
     {| identifier := identifier b; password := password b;
        loggedIn := true |},
     (if loggedIn b then []
      else [LoginRequest (identifier b) (decode (password b))])
     ++ map (ListRequest (identifier b) 100) (cursors_sent pages),
     extra).
Proof.
  intros HF Hl. unfold getFollowers, cursors_sent.
  destruct b as [i pw li]. destruct li.
  - apply (fetch_pages_logged_in decode true pages last extra
             {| identifier := i; password := pw; loggedIn := true |}
             None [] eq_refl HF Hl).
  - pose proof (fetch_pages_logged_in decode true) as H.
    destruct pages as [|pg pages].
    + simpl. unfold withLogin. simpl. rewrite Hl, app_nil_r. reflexivity.
    + inversion HF as [|? ? Hpg HF']; subst.
      cbn [app map fetch_pages]. unfold withLogin at 1.
      cbn [loggedIn negb identifier password]. rewrite Hpg.
      rewrite (H pages last extra
                 {| identifier := i; password := pw; loggedIn := true |}
                 (page_cursor pg) (page_profiles pg) eq_refl HF' Hl).
      reflexivity.
Qed.

(** Two pages of one follower each, for a client that is not logged in. *)
Lemma getFollowers_collects_all_pages_witness :
  getFollowers (fun s => s) true
    [Some {| page_cursor := Some "c1";
             page_profiles := [ {| did := "did:a"; details := VNull |} ] |};
     Some {| page_cursor := None;
             page_profiles := [ {| did := "did:b"; details := VNull |} ] |}]
    {| identifier := "me"; password := "pw"; loggedIn := false |}
  = (Returned [ {| did := "did:a"; details := VNull |};
                {| did := "did:b"; details := VNull |} ],
     {| identifier := "me"; password := "pw"; loggedIn := true |},
     [LoginRequest "me" "pw"; ListRequest "me" 100 None;
      ListRequest "me" 100 (Some "c1")],
     []).
Proof.
  refine (getFollowers_collects_all_pages (fun s => s)
            [ {| page_cursor := Some "c1";
                 page_profiles := [ {| did := "did:a"; details := VNull |} ] |} ]
            {| page_cursor := None;
               page_profiles := [ {| did := "did:b"; details := VNull |} ] |}
            [] {| identifier := "me"; password := "pw"; loggedIn := false |}
            _ eq_refl).
  repeat constructor.
Defined.

(** X18.  A failure of the service is not swallowed and nothing partial is
    returned.  Whatever pages came before, when a request of [getFollows]
    fails the call is rejected; and when the login fails, the call is
    rejected without any list request and the client stays logged out, so
    the next call logs in again. *)
Theorem getFollows_fails_with_the_service
    (decode : string -> string) (pages : list Page)
    (extra : list (option Page)) (b : Bsky) :
  Forall (fun pg => more_pages (page_cursor pg) = true) pages ->
  loggedIn b = false ->
  fst (fst (fst (getFollows decode true (map Some pages ++ None :: extra) b)))
  = Rejected /\
  getFollows decode false (map Some pages ++ None :: extra) b
  = (Rejected, b, [LoginRequest (identifier b) (decode (password b))],
     map Some pages ++ None :: extra).
Proof.
  intros HF Hb. split.
  - unfold getFollows.
    assert (H : forall pages b cursor followers,
              Forall (fun pg => more_pages (page_cursor pg) = true) pages ->
              fst (fst (fst (fetch_pages decode true
                               (map Some pages ++ None :: extra)
                               b cursor followers))) = Rejected).
    { clear. induction pages as [|pg pages IH];
        intros b cursor followers HF.
      - simpl. unfold withLogin. destruct (loggedIn b); reflexivity.
      - inversion HF as [|? ? Hpg HF']; subst.
        cbn [app map fetch_pages]. unfold withLogin.
        destruct (loggedIn b); cbn [negb]; rewrite Hpg;
          match goal with |- context [fetch_pages decode true ?a ?b ?c ?f] =>
            specialize (IH b c f HF');
            destruct (fetch_pages decode true a b c f) as [[[e b2] reqs] remaining]
          end; exact IH. }
    apply H. exact HF.
  - unfold getFollows. destruct pages as [|pg pages];
      cbn [app map fetch_pages]; unfold withLogin; rewrite Hb; reflexivity.
Qed.

(** The second request fails. *)
Lemma getFollows_fails_with_the_service_witness :
  fst (fst (fst
    (getFollows (fun s => s) true
       [Some {| page_cursor := Some "c1"; page_profiles := [] |}; None]
       {| identifier := "me"; password := "pw"; loggedIn := false |})))
  = Rejected.
Proof.
  refine (proj1 (getFollows_fails_with_the_service (fun s => s)
                   [ {| page_cursor := Some "c1"; page_profiles := [] |} ]
                   [] {| identifier := "me"; password := "pw";
                         loggedIn := false |} _ eq_refl)).
  repeat constructor.
Defined.

(** * Properties of the summary *)

Lemma math_max_numbers (times : list Z) :
  times <> [] ->
  exists m, math_max (map Num times) = Num m /\ In m times /\
            Forall (fun t => t <= m) times.
Proof.
  induction times as [|z times IH]; [congruence|]. intros _.
  destruct times as [|y times].
  - exists z. simpl. repeat split; auto. constructor; [lia|constructor].
  - destruct IH as (m & Hm & Hin & Hle); [discriminate|].
    exists (Z.max z m).
    change (math_max (map Num (z :: y :: times)))
      with (max2 (Num z) (math_max (map Num (y :: times)))).
    rewrite Hm. split; [reflexivity|]. split.
    + destruct (Z.max_spec z m) as [[_ ->]|[_ ->]];
        [right; exact Hin|left; reflexivity].
    + constructor; [lia|]. eapply Forall_impl; [exact Hle|].
      simpl. intros; lia.
Qed.

(** X19.  [getSummary] on a model without any snapshot does not return
    [undefined]: with no date to take the maximum of, the timestamp is
    [-Infinity], which is not falsy, and the summary holds the sizes of the
    current lists (0 where there is none).  When there are dates and they
    all parse, the timestamp is the latest of them, and the result is
    [undefined] if that is 0; when a date does not parse the result is
    [undefined]. *)
Theorem getSummary_timestamp
    (getTime : string -> jsnum) (data : ModelData) :
  let counts t :=
    {| timestamp := t;
       followers_count :=
         default 0%nat (length ∘ accounts <$> current (followers data));
       follows_count :=
         default 0%nat (length ∘ accounts <$> current (follows data)) |} in
  (summary_dates data = [] ->
   getSummary getTime data = Some (counts NegInfinity)) /\
  (forall times,
     times <> [] ->
     map getTime (summary_dates data) = map Num times ->
     exists m, In m times /\ Forall (fun t => t <= m) times /\
               getSummary getTime data
               = if m =? 0 then None else Some (counts (Num m))) /\
  (forall d, In d (summary_dates data) -> getTime d = NaN ->
             getSummary getTime data = None).
Proof.
  unfold getSummary. cbv zeta. split; [|split].
  - intros ->. reflexivity.
  - intros times Hne Hm. rewrite Hm.
    destruct (math_max_numbers times Hne) as (m & -> & Hin & Hle).
    exists m. repeat split; auto.
  - intros d Hin Hnan.
    assert (H : math_max (map getTime (summary_dates data)) = NaN).
    { induction (summary_dates data) as [|x l IH]; [contradiction|].
      change (math_max (map getTime (x :: l)))
        with (max2 (getTime x) (math_max (map getTime l))).
      destruct Hin as [->|Hin].
      - rewrite Hnan. reflexivity.
      - rewrite (IH Hin). destruct (getTime x); reflexivity. }
    rewrite H. reflexivity.
Qed.

(** * What the store writes *)

Lemma store_stamped (f : bool) (now : Z) (rt : Runtime) :
  exists new, log (snd (store f now rt)) = new ++ log rt /\
              Forall (stamped (createTime (meta (db rt)))) new.
Proof.
  destruct (store_cases f now rt) as [(Hl & _)|(Hr & _)].
  - exists []. rewrite Hl. split; [reflexivity|constructor].
  - rewrite Hr. destruct (start_write_spec f now rt) as (_ & -> & _).
    eexists [_]. split; [reflexivity|].
    constructor; [|constructor]. simpl. auto.
Qed.

Lemma resume_stamped (now : Z) (ok : bool) (rt : Runtime) :
  exists new, log (resume now ok rt) = new ++ log rt /\
              Forall (stamped (createTime (meta (db rt)))) new.
Proof.
  unfold resume. destruct (inflight rt) as [|w rest];
    [exists []; split; [reflexivity|constructor]|].
  cbv zeta.
  match goal with |- context [after_write now ?r] =>
    assert (Hr : exists new, log r = new ++ log rt /\
                   Forall (stamped (createTime (meta (db rt)))) new);
    [|assert (Ha : exists new, log (after_write now r) = new ++ log r /\
                     Forall (stamped (createTime (meta (db rt)))) new)] end.
  - destruct (w_batch w); simpl.
    + eexists [_; _]. split; [reflexivity|]. repeat constructor.
    + eexists [_]. split; [reflexivity|]. repeat constructor.
  - unfold after_write, setTimeout.
    repeat case_match;
      try (exists []; split; [reflexivity|constructor]).
    match goal with |- context [store true now ?r] =>
      destruct (store_stamped true now r) as (new & Hn & Hs) end.
    exists new. split; [exact Hn|].
    destruct (w_batch w); exact Hs.
  - destruct Hr as (n1 & H1 & F1). destruct Ha as (n2 & H2 & F2).
    exists (Settled (w_call w) true :: n2 ++ n1). split.
    + unfold add_log. cbn [log]. rewrite H2, H1, app_assoc. reflexivity.
    + constructor; [exact I|]. apply Forall_app. auto.
Qed.

Lemma step_stamped (rt : Runtime) (e : event) :
  exists new, log (step rt e) = new ++ log rt /\
              Forall (stamped (createTime (meta (db rt)))) new.
Proof.
  destruct e as [now data|now|t now|now ok]; cbn [step].
  - unfold update.
    match goal with |- context [store false now ?r] =>
      destruct (store_stamped false now r) as (new & Hn & Hs) end.
    exists new. auto.
  - apply store_stamped.
  - unfold fire. destruct (existsb (timer_is t) (timers rt));
      [|exists []; split; [reflexivity|constructor]].
    match goal with |- context [store false now ?r] =>
      destruct (store_stamped false now r) as (new & Hn & Hs) end.
    exists new. auto.
  - apply resume_stamped.
Qed.

Lemma run_stamped (es : list event) :
  forall rt : Runtime,
    Forall (stamped (createTime (meta (db rt)))) (log rt) ->
    Forall (stamped (createTime (meta (db rt)))) (log (run rt es)).
Proof.
  induction es as [|e es IH]; intros rt H; [exact H|].
  simpl. destruct (step_stamped rt e) as (new & Hn & Hs).
  destruct (step_static rt e) as (_ & _ & Hc).
  rewrite <- Hc. apply IH. rewrite Hn, Hc. apply Forall_app. auto.
Qed.

(** X20.  Every file the store writes is stamped: whatever events a store
    goes through after it was loaded, each write that was started carried
    the [createTime] the store was loaded or created with, and as
    [lastSync] the time at which that write started. *)
Theorem every_write_is_stamped
    (d : JsonDb) (es : list event) (t : Z) (u : bool) (c : StoredData) :
  In (WriteStarted t u c) (log (run (boot d) es)) ->
  createTime (stored_meta c) = createTime (meta d) /\
  lastSync (stored_meta c) = t.
Proof.
  intros Hin.
  pose proof (run_stamped es (boot d) (List.Forall_nil _)) as H.
  rewrite Forall_forall in H.
  apply (H (WriteStarted t u c)). apply list_elem_of_In. exact Hin.
Qed.

(** The second write of the coalescing scenario. *)
Lemma every_write_is_stamped_witness :
  createTime
    (stored_meta
       {| stored_meta := {| createTime := 1000; lastUpdate := 1000;
                            lastSync := 1010 |};
          stored_data := doc_a2b3 |}) = 1000 /\
  lastSync
    (stored_meta
       {| stored_meta := {| createTime := 1000; lastUpdate := 1000;
                            lastSync := 1010 |};
          stored_data := doc_a2b3 |}) = 1010.
Proof.
  refine (every_write_is_stamped (fresh_store 1000)
            (scenario 1000 1000 1000 ++ [WriteCompletes 1010 true])
            1010 true _ _).
  vm_compute. right. left. reflexivity.
Defined.

(** ** The file a write leaves loads back *)








